(** * Chandra: the Hugging Face inference path ([chandra/model/hf.py])

    A shallow embedding of [generate_hf], [process_batch_element] and
    [load_model], and the properties of the glue they implement: prompt
    resolution, message assembly, trimming of the generated ids, result
    wrapping, and the choice of the loading keyword arguments.

    Python values are modelled as follows.
    - [str] is [string]; [int] is [Z]; [Optional[str]] is [option string].
    - A [dict] with string keys is a [gmap string _].
    - A call that may raise returns a [result]: [Ok v] or [Raise e].
    - The transformers/torch objects ([model], [model.processor], the batch
      encoding) are records of functions: the code only calls them. *)

From stdpp Require Import base option list gmap strings pretty fin_maps.
From Stdlib Require Import ZArith QArith Lia Ascii.

Open Scope string_scope.
Open Scope Z_scope.

(** ** Exceptions *)

(** [KeyError] is what a failed [dict] subscription raises; every other
    exception comes out of a library call and is kept opaque. *)
Inductive exn : Type :=
  | KeyError (key : string)
  | LibraryError (what : string).

Inductive result (A : Type) : Type :=
  | Ok (a : A)
  | Raise (e : exn).
Arguments Ok {A} a.
Arguments Raise {A} e.

Global Instance result_ret : MRet result := @Ok.
Global Instance result_bind : MBind result := λ A B f m,
  match m with
  | Ok a => f a
  | Raise e => Raise e
  end.

Definition raises {A} (m : result A) : Prop := ∃ e, m = Raise e.

(** [d[k]] on a Python dict. *)
Definition subscript {V} (d : gmap string V) (k : string) : result V :=
  match d !! k with
  | Some v => Ok v
  | None => Raise (KeyError k)
  end.

(** ** Strings *)

(** [str.replace(old, new)]: scan left to right; where [old] starts, emit
    [new] and skip [len(old)] characters, otherwise copy one character.
    [skip] counts the characters of a match still to be passed over. *)
Fixpoint replace_scan (old new : string) (skip : nat) (s : string) : string :=
  match s with
  | "" => ""
  | String c s' =>
      match skip with
      | S k => replace_scan old new k s'
      | O =>
          if String.prefix old s
          then new +:+ replace_scan old new (String.length old - 1) s'
          else String c (replace_scan old new 0 s')
      end
  end.

(** For an empty [old] Python puts [new] before every character and at the
    end. *)
Fixpoint intersperse_new (new s : string) : string :=
  match s with
  | "" => new
  | String c s' => new +:+ String c (intersperse_new new s')
  end.

Definition str_replace (s old new : string) : string :=
  match old with
  | "" => intersperse_new new s
  | _ => replace_scan old new 0 s
  end.

(** [old in s]. *)
Fixpoint contains (old s : string) : bool :=
  String.prefix old s ||
  match s with
  | "" => false
  | String _ s' => contains old s'
  end.

Fixpoint str_drop (n : nat) (s : string) : string :=
  match n, s with
  | O, _ => s
  | S k, "" => ""
  | S k, String _ s' => str_drop k s'
  end.

(** [str(n)] for an [int]: the decimal digits, after a minus sign for a
    negative number. *)
Definition str (n : Z) : string := pretty n.

(** Truthiness of an [Optional[str]]: [None] and [""] are falsy. *)
Definition truthy (p : option string) : bool :=
  match p with
  | Some "" => false
  | Some _ => true
  | None => false
  end.

(** ** Images *)

(** A picture as the code sees it: a size, and pixels it never inspects.
    [Resized src w h] is [src.resize((w, h))]. *)
Inductive Image : Type :=
  | Raster (width height : Z) (pixels : nat)
  | Resized (source : Image) (width height : Z).

Definition size (img : Image) : Z * Z :=
  match img with
  | Raster w h _ => (w, h)
  | Resized _ w h => (w, h)
  end.

Definition width (img : Image) : Z := fst (size img).
Definition height (img : Image) : Z := snd (size img).

(** Modelled from the spec: [scale_to_fit] lives in [chandra/model/util.py],
    which is not among the sources.  The spec has it downscale, never
    upscale, so that neither dimension exceeds its cap, keep the aspect
    ratio, and return an image already within bounds unchanged.  The
    scale factor is the smaller of [max_width / width] and
    [max_height / height]; the other side is rounded down. *)
Definition scale_to_fit (img : Image) (max_size : Z * Z) : Image :=
  let '(w, h) := size img in
  let '(max_width, max_height) := max_size in
  if (w <=? max_width) && (h <=? max_height) then img
  else if max_width * h <=? max_height * w
  then Resized img max_width (h * max_width / w)
  else Resized img (w * max_height / h) max_height.

(** ** The schema ([chandra/model/schema.py]) *)

Record BatchInputItem : Type := {
  image : Image;
  prompt : option string;
  prompt_type : string;
}.

Record GenerationResult : Type := {
  raw : string;
  token_count : Z;
  error : bool;
}.

(** ** Chat messages *)

(** A content block is a dict tagged by its ["type"] entry. *)
Inductive ContentBlock : Type :=
  | ImageBlock (image : Image)
  | TextBlock (text : string).

Record Message : Type := {
  role : string;
  content : list ContentBlock;
}.

(** ** Settings ([chandra/settings.py]) *)

Record Settings : Type := {
  MODEL_CHECKPOINT : string;
  MAX_OUTPUT_TOKENS : Z;
  BBOX_SCALE : Z;
  TORCH_DEVICE : option string;
  USE_8BIT_QUANTIZATION : bool;
  TORCH_ATTN : option string;
}.

(** ** The libraries the code calls *)

Section Libraries.
(** What the chat template returns, what [process_vision_info] extracts
    and what the processor builds are values of the libraries. *)
Context {Text Vision Encoding : Type}.

(** [model.processor]: the chat template (called with [tokenize=False,
    add_generation_prompt=True]), the tokenizer call (with [padding=True,
    padding_side="left", return_tensors="pt"]) and [batch_decode] (with
    [skip_special_tokens=True, clean_up_tokenization_spaces=False]). *)
Record Processor : Type := {
  apply_chat_template : list Message → result Text;
  tokenize : Text → Vision → result Encoding;
  batch_decode : list (list Z) → result (list string);
}.

(** The model handle: [model.processor] and [model.generate] applied
    to the inputs with [max_new_tokens=n]. *)
Record Model : Type := {
  processor : Processor;
  generate : Encoding → Z → result (list (list Z));
}.

(** [qwen_vl_utils] and torch: [process_vision_info(messages)[0]], the rows
    of [inputs.input_ids], [inputs.to(device)] and
    [torch.cuda.is_available()]. *)
Record Runtime : Type := {
  process_vision_info : list Message → result Vision;
  input_ids : Encoding → list (list Z);
  to : Encoding → string → result Encoding;
  cuda_is_available : bool;
}.
End Libraries.
Arguments Processor : clear implicits.
Arguments Model : clear implicits.
Arguments Runtime : clear implicits.

(** ** [process_batch_element] and [generate_hf] *)

Section Inference.
Context {Text Vision Encoding : Type}.
Variable PROMPT_MAPPING : gmap string string.
Variable settings : Settings.
Variable rt : Runtime Vision Encoding.

Definition process_batch_element (item : BatchInputItem)
    (processor : Processor Text Vision Encoding) (bbox_scale : Z)
    : result Message :=
  let prompt := prompt item in
  let prompt_type := prompt_type item in
  prompt ←
    (if negb (truthy prompt)
     then template ← subscript PROMPT_MAPPING prompt_type;
          mret (str_replace template "{bbox_scale}" (str bbox_scale))
     else mret (default "" prompt));
  let image := scale_to_fit (image item) (1536, 1024) in
  let content := ([] ++ [ImageBlock image])%list in
  let content := (content ++ [TextBlock prompt])%list in
  let message := {| role := "user"; content := content |} in
  mret message.

(** [bbox_scale] defaults to [settings.BBOX_SCALE] at the call site; the
    extra keyword arguments are ignored. *)
Definition generate_hf (batch : list BatchInputItem)
    (model : Model Text Vision Encoding) (max_output_tokens : option Z)
    (bbox_scale : Z) : result (list GenerationResult) :=
  let max_output_tokens :=
    match max_output_tokens with
    | None => MAX_OUTPUT_TOKENS settings
    | Some n => n
    end in
  messages ←
    mapM (λ item, process_batch_element item (processor model) bbox_scale)
         batch;
  text ← apply_chat_template (processor model) messages;
  image_inputs ← process_vision_info rt messages;
  inputs ← tokenize (processor model) text image_inputs;
  inputs ← to rt inputs "cuda";
  generated_ids ← generate model inputs max_output_tokens;
  let generated_ids_trimmed :=
    zip_with (λ in_ids out_ids, drop (length in_ids) out_ids)
             (input_ids rt inputs) generated_ids in
  output_text ← batch_decode (processor model) generated_ids_trimmed;
  let results :=
    zip_with (λ out ids,
                {| raw := out;
                   token_count := Z.of_nat (length ids);
                   error := false |})
             output_text generated_ids_trimmed in
  mret results.
End Inference.

(** ** [load_model] *)

Inductive torch_dtype : Type := float32 | float16.

Record BitsAndBytesConfig : Type := {
  load_in_8bit : bool;
  llm_int8_threshold : Q;
  llm_int8_has_fp16_weight : bool;
}.

(** The values that end up in the keyword arguments; the two dicts among
    them hold strings. *)
Inductive PyKey : Type :=
  | KInt (n : Z)
  | KStr (s : string).

Inductive PyVal : Type :=
  | VStr (s : string)
  | VBool (b : bool)
  | VDtype (d : torch_dtype)
  | VQuantConfig (c : BitsAndBytesConfig)
  | VDict (entries : list (PyKey * string)).

Section Loading.
Context {Text Vision Encoding : Type}.
Variable settings : Settings.
Variable rt : Runtime Vision Encoding.

(** [Qwen3VLForConditionalGeneration.from_pretrained] (whose result is used
    through [generate] only) and [Qwen3VLProcessor.from_pretrained]. *)
Record Transformers : Type := {
  model_from_pretrained :
    string → gmap string PyVal → result (Encoding → Z → result (list (list Z)));
  processor_from_pretrained : string → result (Processor Text Vision Encoding);
}.

(** The dict [kwargs] as it stands when [from_pretrained] is called. *)
Definition load_model_kwargs : gmap string PyVal :=
  let device_map := VStr "auto" in
  let device_map :=
    if truthy (TORCH_DEVICE settings)
    then VDict [(KStr "", default "" (TORCH_DEVICE settings))]
    else device_map in
  let dtype := float32 in
  let kwargs : gmap string PyVal :=
    <["offload_state_dict" := VBool true]>
      (<["max_memory" := VDict [(KInt 0, "11GiB"); (KStr "cpu", "60GiB")]]>
         (<["device_map" := device_map]> ∅)) in
  let kwargs :=
    if USE_8BIT_QUANTIZATION settings && cuda_is_available rt
    then
      let quantization_config :=
        {| load_in_8bit := true;
           llm_int8_threshold := 6 # 1;
           llm_int8_has_fp16_weight := false |} in
      <["torch_dtype" := VDtype float16]>
        (<["quantization_config" := VQuantConfig quantization_config]> kwargs)
    else <["dtype" := VDtype dtype]> kwargs in
  let kwargs :=
    if truthy (TORCH_ATTN settings)
    then <["attn_implementation" := VStr (default "" (TORCH_ATTN settings))]> kwargs
    else kwargs in
  kwargs.

(** [model.eval()] only switches the mode of the handle and is left out. *)
Definition load_model (hub : Transformers)
    : result (Model Text Vision Encoding) :=
  model ← model_from_pretrained hub (MODEL_CHECKPOINT settings) load_model_kwargs;
  processor ← processor_from_pretrained hub (MODEL_CHECKPOINT settings);
  mret {| processor := processor; generate := model |}.
End Loading.
Arguments Transformers : clear implicits.

(** The two shapes of [kwargs] the precision policy can produce. *)
Definition quantized_kwargs (kwargs : gmap string PyVal) : Prop :=
  kwargs !! "quantization_config"
    = Some (VQuantConfig {| load_in_8bit := true;
                            llm_int8_threshold := 6 # 1;
                            llm_int8_has_fp16_weight := false |})
  ∧ kwargs !! "torch_dtype" = Some (VDtype float16)
  ∧ kwargs !! "dtype" = None.

Definition full_precision_kwargs (kwargs : gmap string PyVal) : Prop :=
  kwargs !! "dtype" = Some (VDtype float32)
  ∧ kwargs !! "quantization_config" = None
  ∧ kwargs !! "torch_dtype" = None.

(** ** A small instance of the libraries

    One row per message, left padding with token [0], a generation that
    appends to every row: enough to run [generate_hf] on concrete batches. *)
Module Toy.

Record Enc : Type := { rows : list (list Z); device : string }.

Definition block_text (b : ContentBlock) : string :=
  match b with
  | ImageBlock _ => "<image>"
  | TextBlock t => t
  end.

Definition render (m : Message) : string :=
  foldr (λ b acc, block_text b +:+ acc) "" (content m).

Definition block_images (b : ContentBlock) : list Image :=
  match b with
  | ImageBlock i => [i]
  | TextBlock _ => []
  end.

Definition tokens_of_string (s : string) : list Z :=
  (λ c, Z.of_N (N_of_ascii c)) <$> String.list_ascii_of_string s.

Definition string_of_tokens (l : list Z) : string :=
  String.string_of_list_ascii
    ((λ z, ascii_of_N (Z.to_N z)) <$> filter (λ z, z ≠ 0) l).

Definition left_pad (rows : list (list Z)) : list (list Z) :=
  let n := max_list (length <$> rows) in
  (λ r, replicate (n - length r) 0 ++ r)%list <$> rows.

Definition toy_processor : Processor (list string) (list Image) Enc := {|
  apply_chat_template := λ messages, Ok (render <$> messages);
  tokenize := λ text _,
    Ok {| rows := left_pad (tokens_of_string <$> text); device := "cpu" |};
  batch_decode := λ seqs, Ok (string_of_tokens <$> seqs);
|}.

Definition toy_generate (inputs : Enc) (max_new_tokens : Z)
    : result (list (list Z)) :=
  Ok ((λ r, r ++ take (Z.to_nat max_new_tokens) (reverse r))%list
        <$> rows inputs).

Definition toy_model : Model (list string) (list Image) Enc :=
  {| processor := toy_processor; generate := toy_generate |}.



(** A processor that renders the list of messages as the turns of one
    conversation: one text, hence one row, for the whole batch. *)
Definition merging_processor : Processor (list string) (list Image) Enc := {|
  apply_chat_template := λ messages,
    Ok [foldr (λ m acc, render m +:+ acc) "" messages];
  tokenize := tokenize toy_processor;
  batch_decode := batch_decode toy_processor;
|}.

Definition merging_model : Model (list string) (list Image) Enc :=
  {| processor := merging_processor; generate := toy_generate |}.

(** A processor whose chat template indexes the first message, as a list
    subscript would, and so raises on an empty list. *)
Definition strict_processor : Processor (list string) (list Image) Enc := {|
  apply_chat_template := λ messages,
    match messages with
    | [] => Raise (LibraryError "list index out of range")
    | _ => Ok (render <$> messages)
    end;
  tokenize := tokenize toy_processor;
  batch_decode := batch_decode toy_processor;
|}.

Definition strict_model : Model (list string) (list Image) Enc :=
  {| processor := strict_processor; generate := toy_generate |}.

(** A hub whose checkpoint has no processor files. *)
Definition no_processor_hub : Transformers (list string) (list Image) Enc := {|
  model_from_pretrained := λ _ _, Ok toy_generate;
  processor_from_pretrained := λ _,
    Raise (LibraryError "preprocessor_config.json not found");
|}.

(** A handle whose generation runs out of memory. *)
Definition oom_model : Model (list string) (list Image) Enc :=
  {| processor := toy_processor;
     generate := λ _ _, Raise (LibraryError "CUDA out of memory") |}.

(** A machine with or without a CUDA device: without one, moving a tensor
    to ["cuda"] raises. *)
Definition toy_runtime (cuda : bool) : Runtime (list Image) Enc := {|
  process_vision_info := λ messages,
    Ok (mbind (λ m, mbind block_images (content m)) messages);
  input_ids := rows;
  to := λ inputs dev,
    if bool_decide (dev = "cuda") && negb cuda
    then Raise (LibraryError "Torch not compiled with CUDA enabled")
    else Ok {| rows := rows inputs; device := dev |};
  cuda_is_available := cuda;
|}.

Definition toy_hub : Transformers (list string) (list Image) Enc := {|
  model_from_pretrained := λ _ _, Ok toy_generate;
  processor_from_pretrained := λ _, Ok toy_processor;
|}.

Definition sample_prompts : gmap string string :=
  <["ocr_layout" := "OCR this image to HTML blocks; bboxes are normalized 0-{bbox_scale}."]>
    (<["ocr" := "OCR this image, coordinates up to {bbox_scale} ({bbox_scale} wide)."]> ∅).

Definition plain_prompts : gmap string string :=
  <["ocr" := "OCR this image to HTML."]> ∅.

Definition sample_settings : Settings := {|
  MODEL_CHECKPOINT := "datalab-to/chandra";
  MAX_OUTPUT_TOKENS := 4;
  BBOX_SCALE := 1000;
  TORCH_DEVICE := Some "cpu";
  USE_8BIT_QUANTIZATION := true;
  TORCH_ATTN := None;
|}.

Definition chart : BatchInputItem :=
  {| image := Raster 3000 1000 1;
     prompt := Some "Describe this chart";
     prompt_type := "ocr_layout" |}.

Definition page : BatchInputItem :=
  {| image := Raster 800 600 2; prompt := None; prompt_type := "ocr" |}.

Definition blank_prompt : BatchInputItem :=
  {| image := Raster 10 10 3; prompt := Some ""; prompt_type := "ocr" |}.

Definition unknown_type : BatchInputItem :=
  {| image := Raster 10 10 4; prompt := None; prompt_type := "table" |}.

End Toy.

(** ** Auxiliary notions used in the statements *)

(** How many matches [replace_scan] replaces. *)
Fixpoint count_scan (old : string) (skip : nat) (s : string) : nat :=
  match s with
  | "" => O
  | String c s' =>
      match skip with
      | S k => count_scan old k s'
      | O =>
          if String.prefix old s
          then S (count_scan old (String.length old - 1) s')
          else count_scan old 0 s'
      end
  end.

(** Modelled from the spec: the prompt registry ([chandra/prompts.py]) is not
    among the sources.  The spec describes it as a mapping from
    [prompt_type] to a template string containing a [{bbox_scale}]
    placeholder. *)
Definition registry_wf (registry : gmap string string) : Prop :=
  ∀ prompt_type template,
    registry !! prompt_type = Some template →
    contains "{bbox_scale}" template = true.

(** A string is unbordered when none of its proper non-empty suffixes is
    also a prefix: two matches of it cannot overlap. *)
Definition unbordered (old : string) : Prop :=
  ∀ u v, u ≠ "" → v ≠ "" → old = u +:+ v → String.prefix v old = false.

Definition unbordered_b (old : string) : bool :=
  forallb (λ n, negb (String.prefix (str_drop n old) old))
          (seq 1 (String.length old - 1)).

Definition starts_with_brace (s : string) : bool :=
  match s with
  | String "{" _ => true
  | _ => false
  end.

(** The steps of [generate_hf] up to the call of [model.generate]: the
    messages, and the inputs as moved to the device. *)
Definition prepare_inputs {Text Vision Encoding : Type}
    (PROMPT_MAPPING : gmap string string) (rt : Runtime Vision Encoding)
    (batch : list BatchInputItem) (model : Model Text Vision Encoding)
    (bbox_scale : Z) : result (list Message * Encoding) :=
  messages ←
    mapM (λ item,
            process_batch_element PROMPT_MAPPING item (processor model) bbox_scale)
         batch;
  text ← apply_chat_template (processor model) messages;
  image_inputs ← process_vision_info rt messages;
  inputs ← tokenize (processor model) text image_inputs;
  inputs ← to rt inputs "cuda";
  mret (messages, inputs).

(** The token budget [generate] is called with. *)
Definition token_budget (settings : Settings) (max_output_tokens : option Z) : Z :=
  match max_output_tokens with
  | None => MAX_OUTPUT_TOKENS settings
  | Some n => n
  end.

(** The two comprehensions over [zip]. *)
Definition trim_prompts (input_ids generated_ids : list (list Z))
    : list (list Z) :=
  zip_with (λ in_ids out_ids, drop (length in_ids) out_ids)
           input_ids generated_ids.

Definition wrap_results (output_text : list string) (trimmed : list (list Z))
    : list GenerationResult :=
  zip_with (λ out ids,
              {| raw := out;
                 token_count := Z.of_nat (length ids);
                 error := false |})
           output_text trimmed.

(** What the glue expects of the libraries: one row of input ids per
    message, a device move that keeps the ids, one generated row per input
    row and one decoded string per sequence. *)
Definition row_per_item {Text Vision Encoding : Type}
    (rt : Runtime Vision Encoding) (model : Model Text Vision Encoding) : Prop :=
  (∀ messages text image_inputs inputs,
     apply_chat_template (processor model) messages = Ok text →
     process_vision_info rt messages = Ok image_inputs →
     tokenize (processor model) text image_inputs = Ok inputs →
     length (input_ids rt inputs) = length messages)
  ∧ (∀ inputs device inputs',
       to rt inputs device = Ok inputs' →
       input_ids rt inputs' = input_ids rt inputs)
  ∧ (∀ inputs n generated_ids,
       generate model inputs n = Ok generated_ids →
       length generated_ids = length (input_ids rt inputs))
  ∧ (∀ seqs output_text,
       batch_decode (processor model) seqs = Ok output_text →
       length output_text = length seqs).


(** torch without a CUDA device refuses to move a tensor to ["cuda"]. *)
Definition cuda_required {Vision Encoding : Type}
    (rt : Runtime Vision Encoding) : Prop :=
  cuda_is_available rt = false → ∀ inputs, raises (to rt inputs "cuda").

(** An item whose prompt cannot be resolved: no usable prompt of its own and
    no template under its [prompt_type]. *)
Definition unresolvable (PROMPT_MAPPING : gmap string string)
    (item : BatchInputItem) : bool :=
  negb (truthy (prompt item))
  && bool_decide (PROMPT_MAPPING !! prompt_type item = None).

Definition first_unresolvable (PROMPT_MAPPING : gmap string string)
    (batch : list BatchInputItem) : option string :=
  prompt_type <$> head (filter (λ item, unresolvable PROMPT_MAPPING item = true) batch).

(** Equal aspect ratios up to the rounding of one side to a whole pixel. *)
Definition same_aspect_within_rounding (original scaled : Image) : Prop :=
  Z.abs (width scaled * height original - height scaled * width original)
  < Z.max 1 (Z.max (width original) (height original)).



(** [c in s] for a character. *)
Fixpoint char_in (c : ascii) (s : string) : bool :=
  match s with
  | "" => false
  | String d s' => Ascii.eqb c d || char_in c s'
  end.

(** No character of [new] occurs in [old]. *)
Fixpoint avoids (new old : string) : bool :=
  match new with
  | "" => true
  | String c new' => negb (char_in c old) && avoids new' old
  end.

(** What [generate] of a decoder-only model returns: every row of input
    ids followed by its continuation, of at most [max_new_tokens] tokens. *)
Definition appends_continuations {Text Vision Encoding : Type}
    (rt : Runtime Vision Encoding) (model : Model Text Vision Encoding) : Prop :=
  ∀ inputs n generated_ids,
    generate model inputs n = Ok generated_ids →
    ∃ continuations : list (list Z),
      length continuations = length (input_ids rt inputs)
      ∧ generated_ids = zip_with app (input_ids rt inputs) continuations
      ∧ Forall (λ c, Z.of_nat (length c) ≤ Z.max 0 n) continuations.

(** The item with an empty prompt turned into an absent one. *)
Definition without_empty_prompt (item : BatchInputItem) : BatchInputItem :=
  if truthy (prompt item) then item
  else {| image := image item; prompt := None; prompt_type := prompt_type item |}.

(** The keys [load_model] may pass to [from_pretrained]. *)
Definition placement_keys : gset string :=
  {[ "device_map"; "max_memory"; "offload_state_dict" ]}.

Definition precision_keys (quantized : bool) : gset string :=
  if quantized then {[ "quantization_config"; "torch_dtype" ]} else {[ "dtype" ]}.

Definition attention_keys (configured : bool) : gset string :=
  if configured then {[ "attn_implementation" ]} else ∅.

(** * Properties *)

(** ** Strings *)

Section StringFacts.
Implicit Types s t old new : string.

Lemma str_app_nil_l s : "" +:+ s = s.
Proof. reflexivity. Qed.

Lemma str_app_cons c s t : String c s +:+ t = String c (s +:+ t).
Proof. reflexivity. Qed.

Lemma str_length_app s t :
  String.length (s +:+ t) = (String.length s + String.length t)%nat.
Proof.
  induction s as [|c s IH]; [done|].
  rewrite str_app_cons. simpl. by rewrite IH.
Qed.

Lemma str_app_assoc s t u : (s +:+ t) +:+ u = s +:+ t +:+ u.
Proof.
  induction s as [|c s IH]; [done|]. rewrite !str_app_cons. by rewrite IH.
Qed.

Lemma str_app_nil_r s : s +:+ "" = s.
Proof.
  induction s as [|c s IH]; [done|]. rewrite str_app_cons. by rewrite IH.
Qed.

(** Two decompositions with heads of equal length have equal heads. *)
Lemma str_app_eq_length s1 s2 t1 t2 :
  s1 +:+ t1 = s2 +:+ t2 → String.length s1 = String.length s2 →
  s1 = s2 ∧ t1 = t2.
Proof.
  revert s2. induction s1 as [|c s1 IH]; intros [|d s2]; simpl; try done.
  intros [= -> Heq] [= Hlen]. destruct (IH _ Heq Hlen) as [-> ->]. done.
Qed.

Lemma prefix_app old t : String.prefix old (old +:+ t) = true.
Proof.
  induction old as [|c old IH]; simpl; [by destruct t|].
  destruct (ascii_dec c c); [done|congruence].
Qed.

Lemma prefix_inv old s :
  String.prefix old s = true → ∃ t, s = old +:+ t.
Proof.
  revert s. induction old as [|c old IH]; intros s H.
  - exists s. done.
  - destruct s as [|d s]; simpl in H; [done|].
    destruct (ascii_dec c d) as [->|]; [|done].
    destruct (IH _ H) as [t ->]. by exists t.
Qed.

Lemma prefix_length old s :
  String.prefix old s = true → (String.length old ≤ String.length s)%nat.
Proof.
  intros [t ->]%prefix_inv. rewrite str_length_app. lia.
Qed.

Lemma str_drop_nil n : str_drop n "" = "".
Proof. by destruct n. Qed.

Lemma str_drop_app s t : str_drop (String.length s) (s +:+ t) = t.
Proof. induction s as [|c s IH]; simpl; [by destruct t|done]. Qed.

Lemma str_length_drop n s :
  String.length (str_drop n s) = (String.length s - n)%nat.
Proof.
  revert n. induction s as [|c s IH]; intros [|n]; simpl; try done.
Qed.

Lemma contains_nil old : contains old "" = String.prefix old "".
Proof. unfold contains. apply orb_false_r. Qed.

Lemma contains_unfold old c s :
  contains old (String c s) = String.prefix old (String c s) || contains old s.
Proof. reflexivity. Qed.

Lemma contains_prefix old s :
  String.prefix old s = true → contains old s = true.
Proof.
  destruct s; [by rewrite contains_nil|].
  rewrite contains_unfold. by intros ->.
Qed.

Lemma contains_cons old c s :
  contains old s = true → contains old (String c s) = true.
Proof. rewrite contains_unfold. intros ->. apply orb_true_r. Qed.

Lemma contains_app old pre post : contains old (pre +:+ old +:+ post) = true.
Proof.
  induction pre as [|c pre IH].
  - rewrite str_app_nil_l. apply contains_prefix, prefix_app.
  - rewrite str_app_cons. by apply contains_cons.
Qed.

Lemma contains_inv old s :
  contains old s = true → ∃ pre post, s = pre +:+ old +:+ post.
Proof.
  induction s as [|c s IH].
  - rewrite contains_nil. intros [t ->]%prefix_inv. by exists "", t.
  - rewrite contains_unfold, orb_true_iff. intros [H|H].
    + apply prefix_inv in H as [t ->]. by exists "", t.
    + destruct (IH H) as (pre & post & ->). by exists (String c pre), post.
Qed.

(** *** [replace_scan] *)

Lemma replace_scan_skip old new skip s :
  replace_scan old new skip s = replace_scan old new 0 (str_drop skip s).
Proof.
  revert skip. induction s as [|c s IH]; intros [|k]; simpl; try done.
Qed.

(** The three equations of the scan. *)
Lemma replace_scan_nil old new : replace_scan old new 0 "" = "".
Proof. done. Qed.

Lemma replace_scan_match old new t :
  old ≠ "" →
  replace_scan old new 0 (old +:+ t) = new +:+ replace_scan old new 0 t.
Proof.
  intros Hne. destruct old as [|c old]; [done|].
  rewrite str_app_cons. cbn [replace_scan].
  rewrite <-str_app_cons, prefix_app.
  rewrite replace_scan_skip.
  replace (String.length (String c old) - 1)%nat with (String.length old)
    by (simpl; lia).
  by rewrite str_drop_app.
Qed.

Lemma replace_scan_copy old new c s :
  String.prefix old (String c s) = false →
  replace_scan old new 0 (String c s) = String c (replace_scan old new 0 s).
Proof. intros H. cbn [replace_scan]. by rewrite H. Qed.

Lemma replace_scan_free old new s :
  contains old s = false → replace_scan old new 0 s = s.
Proof.
  induction s as [|c s IH]; [done|].
  rewrite contains_unfold, orb_false_iff. intros [Hp Hc].
  rewrite replace_scan_copy by done. by rewrite IH.
Qed.

Lemma count_scan_pos old s :
  contains old s = true → old ≠ "" → (0 < count_scan old 0 s)%nat.
Proof.
  intros H Hne. induction s as [|c s IH].
  - rewrite contains_nil in H. by destruct old.
  - rewrite contains_unfold in H. cbn [count_scan].
    destruct (String.prefix old (String c s)); [lia|]. by apply IH.
Qed.

(** Every match changes the length by [len(new) - len(old)]. *)
Lemma replace_scan_length old new skip s :
  old ≠ "" →
  Z.of_nat (String.length (replace_scan old new skip s))
  = Z.of_nat (String.length (str_drop skip s))
    + Z.of_nat (count_scan old skip s)
      * (Z.of_nat (String.length new) - Z.of_nat (String.length old)).
Proof.
  intros Hne. revert skip.
  induction s as [|c s IH]; intros [|k]; cbn [replace_scan count_scan str_drop].
  - simpl. lia.
  - simpl. lia.
  - destruct (String.prefix old (String c s)) eqn:Hp.
    + apply prefix_length in Hp. simpl in Hp.
      assert (0 < String.length old)%nat by (destruct old; [done|simpl; lia]).
      rewrite str_length_app, Nat2Z.inj_add, IH, str_length_drop.
      simpl String.length. lia.
    + simpl String.length. rewrite !Nat2Z.inj_succ, IH. simpl str_drop. lia.
  - apply IH.
Qed.

(** Replacing changes a string that holds a match, unless [new] is [old]. *)
Lemma replace_scan_changes old new s :
  old ≠ "" → new ≠ old → contains old s = true →
  replace_scan old new 0 s ≠ s.
Proof.
  intros Hne Hnew Hc Heq.
  assert (String.length new = String.length old) as Hlen.
  { pose proof (replace_scan_length old new 0 s Hne) as HL.
    rewrite Heq in HL. simpl str_drop in HL.
    pose proof (count_scan_pos old s Hc Hne). nia. }
  clear Hne. induction s as [|c s IH].
  - rewrite contains_nil in Hc. destruct old; [|done]. by destruct new.
  - destruct (String.prefix old (String c s)) eqn:Hp.
    + destruct (prefix_inv _ _ Hp) as [t Ht]. rewrite Ht in Heq.
      destruct old as [|d old]; [by destruct new|].
      rewrite replace_scan_match in Heq by done.
      by apply str_app_eq_length in Heq as [? _].
    + rewrite replace_scan_copy in Heq by done. injection Heq as Heq.
      rewrite contains_unfold, Hp in Hc. by apply IH.
Qed.


(** *** Matches of an unbordered pattern do not overlap *)

Lemma str_app_split s1 t1 s2 t2 :
  s1 +:+ t1 = s2 +:+ t2 →
  (∃ v, s2 = s1 +:+ v ∧ t1 = v +:+ t2) ∨ (∃ v, s1 = s2 +:+ v ∧ t2 = v +:+ t1).
Proof.
  revert s2. induction s1 as [|c s1 IH]; intros s2 Heq.
  - left. by exists s2.
  - destruct s2 as [|d s2].
    + right. by exists (String c s1).
    + rewrite !str_app_cons in Heq. injection Heq as -> Heq.
      destruct (IH _ Heq) as [(v & -> & ->)|(v & -> & ->)];
        [left|right]; by exists v.
Qed.

Lemma str_length_pos s : s ≠ "" → (0 < String.length s)%nat.
Proof. destruct s; [done|simpl; lia]. Qed.

Lemma unbordered_b_sound old : unbordered_b old = true → unbordered old.
Proof.
  unfold unbordered_b. rewrite forallb_forall.
  intros Hall u v Hu Hv ->.
  specialize (Hall (String.length u)).
  rewrite str_drop_app, negb_true_iff in Hall. apply Hall.
  apply in_seq. rewrite str_length_app.
  apply str_length_pos in Hu, Hv. lia.
Qed.

Lemma contains_self_app old v : contains old (old +:+ v) = true.
Proof. apply contains_prefix, prefix_app. Qed.

Lemma no_straddling_match old p t :
  unbordered old → p ≠ "" → contains old p = false →
  String.prefix old (p +:+ old +:+ t) = false.
Proof.
  intros Hub Hp Hfree.
  destruct (String.prefix old (p +:+ old +:+ t)) eqn:Hpre; [|done].
  exfalso. apply prefix_inv in Hpre as [r Hr].
  destruct (str_app_split _ _ _ _ Hr) as [(v & Hold & Hv)|(v & -> & _)].
  - (* the match ends inside the copy of [old] that follows [p] *)
    assert (v ≠ "") as Hvne.
    { intros ->. rewrite str_app_nil_r in Hold. rewrite <-Hold in Hfree.
      pose proof (contains_self_app old "") as Hself.
      rewrite str_app_nil_r in Hself. congruence. }
    assert (String.prefix v old = true) as Hvpre.
    { destruct (str_app_split _ _ _ _ Hv) as [(w & Hw & _)|(w & Hw & _)].
      - apply (f_equal String.length) in Hold.
        rewrite Hw, !str_length_app in Hold.
        apply str_length_pos in Hp. lia.
      - rewrite Hw. apply prefix_app. }
    by rewrite (Hub p v Hp Hvne Hold) in Hvpre.
  - (* the match lies within [p] *)
    by rewrite contains_self_app in Hfree.
Qed.

(** Up to the first match the scan copies. *)
Lemma replace_scan_first old new p t :
  old ≠ "" → unbordered old → contains old p = false →
  replace_scan old new 0 (p +:+ old +:+ t)
  = p +:+ new +:+ replace_scan old new 0 t.
Proof.
  intros Hne Hub. induction p as [|c p IH]; intros Hfree.
  - rewrite !str_app_nil_l. by apply replace_scan_match.
  - assert (contains old p = false) as Hfree'.
    { rewrite contains_unfold, orb_false_iff in Hfree. by destruct Hfree. }
    rewrite !str_app_cons, replace_scan_copy, IH; [done..|].
    rewrite <-str_app_cons. by apply no_straddling_match.
Qed.

(** Split at the matches and joined again with [new]: what replacing every
    occurrence means. *)
Lemma replace_scan_join old new pieces :
  old ≠ "" → unbordered old →
  Forall (λ p, contains old p = false) pieces →
  replace_scan old new 0 (String.concat old pieces) = String.concat new pieces.
Proof.
  intros Hne Hub. induction pieces as [|p [|q rest] IH]; intros Hall.
  - done.
  - apply replace_scan_free. by inversion Hall.
  - inversion Hall as [|?? Hp Hrest]; subst.
    change (String.concat old (p :: q :: rest))
      with (p +:+ old +:+ String.concat old (q :: rest)).
    change (String.concat new (p :: q :: rest))
      with (p +:+ new +:+ String.concat new (q :: rest)).
    rewrite replace_scan_first by done. by rewrite IH.
Qed.

End StringFacts.

(** *** The placeholder and the decimal form of the scale *)

Lemma placeholder_unbordered : unbordered "{bbox_scale}".
Proof. apply unbordered_b_sound. reflexivity. Qed.

Lemma str_replace_placeholder (s new : string) :
  str_replace s "{bbox_scale}" new = replace_scan "{bbox_scale}" new 0 s.
Proof. reflexivity. Qed.

Lemma pretty_N_go_no_brace (x : N) (s : string) :
  starts_with_brace s = false → starts_with_brace (pretty_N_go x s) = false.
Proof.
  revert s. induction (N.lt_wf_0 x) as [x _ IH]; intros s Hs.
  destruct (decide (x = 0)%N) as [->|Hx].
  - by rewrite pretty_N_go_0.
  - rewrite pretty_N_go_step by lia. apply IH.
    + apply N.div_lt; lia.
    + unfold pretty_N_char. by repeat case_match.
Qed.

(** [str(n)] never starts with a brace, so it is never the placeholder. *)
Lemma str_no_brace (n : Z) : starts_with_brace (str n) = false.
Proof.
  destruct n as [|p|p]; [done| |done].
  change (starts_with_brace (pretty_N_go (N.pos p) "") = false).
  by apply pretty_N_go_no_brace.
Qed.

Lemma str_ne_placeholder (n : Z) : str n ≠ "{bbox_scale}".
Proof.
  intros H. pose proof (str_no_brace n) as Hb. by rewrite H in Hb.
Qed.

(** ** The result monad *)

Lemma bind_Ok_inv {A B} (m : result A) (f : A → result B) (b : B) :
  m ≫= f = Ok b → ∃ a, m = Ok a ∧ f a = Ok b.
Proof. destruct m as [a|e]; [|done]. intros H. by exists a. Qed.

Lemma bind_Raise {A B} (m : result A) (f : A → result B) e :
  m = Raise e → m ≫= f = Raise e.
Proof. by intros ->. Qed.

Lemma bind_Ok {A B} (m : result A) (f : A → result B) a :
  m = Ok a → m ≫= f = f a.
Proof. by intros ->. Qed.

Section ResultFacts.
Context {A B : Type}.
Implicit Types (f : A → result B) (l : list A) (k : list B).

Lemma mapM_nil f : mapM f [] = Ok [].
Proof. done. Qed.

Lemma mapM_cons f x l :
  mapM f (x :: l) = y ← f x; k ← mapM f l; mret (y :: k).
Proof. done. Qed.




(** It returns when every element does. *)
Lemma mapM_total f l :
  Forall (λ x, ∃ y, f x = Ok y) l → ∃ k, mapM f l = Ok k.
Proof.
  induction 1 as [|x l [y Hy] _ [k Hk]].
  - by exists [].
  - exists (y :: k). by rewrite mapM_cons, Hy, Hk.
Qed.

(** It raises what the first failing element raises. *)
Lemma mapM_Raise_first f l1 x l2 e :
  Forall (λ x, ∃ y, f x = Ok y) l1 → f x = Raise e →
  mapM f (l1 ++ x :: l2) = Raise e.
Proof.
  intros Hl1 Hx. induction Hl1 as [|x1 l1 [y Hy] _ IH].
  - by rewrite app_nil_l, mapM_cons, Hx.
  - by rewrite <-app_comm_cons, mapM_cons, Hy, IH.
Qed.

End ResultFacts.

(** ** [process_batch_element] *)

Section PromptResolution.
Context {Text Vision Encoding : Type}.
Variable PROMPT_MAPPING : gmap string string.
Implicit Types (item : BatchInputItem) (processor : Processor Text Vision Encoding).

Lemma truthy_Some (p : option string) :
  truthy p = true ↔ ∃ s, p = Some s ∧ s ≠ "".
Proof.
  destruct p as [[|c s]|]; simpl; split; try done.
  - intros (s & [= <-] & ?). done.
  - intros _. by eexists.
  - intros (s & ? & _). done.
Qed.

(** The three outcomes of resolving the prompt. *)
Lemma process_own_prompt item processor bbox_scale s :
  prompt item = Some s → s ≠ "" →
  process_batch_element PROMPT_MAPPING item processor bbox_scale
  = Ok {| role := "user";
          content := [ImageBlock (scale_to_fit (image item) (1536, 1024));
                      TextBlock s] |}.
Proof.
  intros Hp Hs. unfold process_batch_element. rewrite Hp.
  destruct s; done.
Qed.

Lemma process_template item processor bbox_scale template :
  truthy (prompt item) = false →
  PROMPT_MAPPING !! prompt_type item = Some template →
  process_batch_element PROMPT_MAPPING item processor bbox_scale
  = Ok {| role := "user";
          content := [ImageBlock (scale_to_fit (image item) (1536, 1024));
                      TextBlock (str_replace template "{bbox_scale}"
                                             (str bbox_scale))] |}.
Proof.
  intros Hp Ht. unfold process_batch_element, subscript. by rewrite Hp, Ht.
Qed.

Lemma process_missing_template item processor bbox_scale :
  truthy (prompt item) = false →
  PROMPT_MAPPING !! prompt_type item = None →
  process_batch_element PROMPT_MAPPING item processor bbox_scale
  = Raise (KeyError (prompt_type item)).
Proof.
  intros Hp Ht. unfold process_batch_element, subscript. by rewrite Hp, Ht.
Qed.

Lemma process_resolvable item processor bbox_scale :
  unresolvable PROMPT_MAPPING item = false →
  ∃ message,
    process_batch_element PROMPT_MAPPING item processor bbox_scale = Ok message.
Proof.
  unfold unresolvable. rewrite andb_false_iff, negb_false_iff, bool_decide_eq_false.
  intros [Hp|Ht].
  - apply truthy_Some in Hp as (s & Hs & Hne).
    eexists. by apply process_own_prompt.
  - destruct (truthy (prompt item)) eqn:Hp.
    + apply truthy_Some in Hp as (s & Hs & Hne).
      eexists. by apply process_own_prompt.
    + destruct (PROMPT_MAPPING !! prompt_type item) as [t|] eqn:E; [|done].
      eexists. by apply process_template.
Qed.

Lemma process_unresolvable item processor bbox_scale :
  unresolvable PROMPT_MAPPING item = true →
  process_batch_element PROMPT_MAPPING item processor bbox_scale
  = Raise (KeyError (prompt_type item)).
Proof.
  unfold unresolvable. rewrite andb_true_iff, negb_true_iff, bool_decide_eq_true.
  intros [Hp Ht]. by apply process_missing_template.
Qed.

End PromptResolution.

(** ** [scale_to_fit] *)

Lemma width_Resized src w h : width (Resized src w h) = w.
Proof. reflexivity. Qed.

Lemma height_Resized src w h : height (Resized src w h) = h.
Proof. reflexivity. Qed.

Section ScaleToFit.
Variables (img : Image) (max_width max_height : Z).
Hypothesis max_width_pos : 0 < max_width.
Hypothesis max_height_pos : 0 < max_height.
Hypothesis width_nonneg : 0 ≤ width img.
Hypothesis height_nonneg : 0 ≤ height img.

Local Abbreviation scaled := (scale_to_fit img (max_width, max_height)).

(** How the three branches are taken. *)
Lemma scale_to_fit_cases :
  (width img ≤ max_width ∧ height img ≤ max_height ∧ scaled = img)
  ∨ (max_width < width img ∧ max_width * height img ≤ max_height * width img
     ∧ scaled = Resized img max_width (height img * max_width / width img))
  ∨ (max_height < height img ∧ max_height * width img < max_width * height img
     ∧ scaled = Resized img (width img * max_height / height img) max_height).
Proof.
  unfold scale_to_fit, width, height in *.
  destruct (size img) as [w h]; simpl in *.
  destruct (Z.leb_spec w max_width) as [Hw|Hw],
           (Z.leb_spec h max_height) as [Hh|Hh]; simpl.
  - by left.
  - (* only the height exceeds its cap *)
    assert (max_height * w < max_width * h).
    { apply Z.le_lt_trans with (max_height * max_width); nia. }
    destruct (Z.leb_spec (max_width * h) (max_height * w)); [lia|].
    right; right. repeat split; [done|lia].
  - (* only the width exceeds its cap *)
    assert (max_width * h < max_height * w).
    { apply Z.le_lt_trans with (max_width * max_height); nia. }
    destruct (Z.leb_spec (max_width * h) (max_height * w)); [|lia].
    right; left. repeat split; done.
  - destruct (Z.leb_spec (max_width * h) (max_height * w)).
    + right; left. repeat split; done.
    + right; right. repeat split; [done|lia].
Qed.

Lemma scale_to_fit_within :
  width scaled ≤ max_width ∧ height scaled ≤ max_height.
Proof.
  destruct scale_to_fit_cases as [(?&?&->)|[(?&?&->)|(?&?&->)]];
    [done| |]; rewrite width_Resized, height_Resized; split; try lia.
  - apply Z.div_le_upper_bound; lia.
  - apply Z.div_le_upper_bound; lia.
Qed.

Lemma scale_to_fit_never_enlarges :
  width scaled ≤ width img ∧ height scaled ≤ height img.
Proof.
  destruct scale_to_fit_cases as [(?&?&->)|[(?&?&->)|(?&?&->)]];
    [done| |]; rewrite width_Resized, height_Resized; split; try lia.
  - apply Z.div_le_upper_bound; nia.
  - apply Z.div_le_upper_bound; nia.
Qed.

Lemma scale_to_fit_unchanged :
  width img ≤ max_width → height img ≤ max_height → scaled = img.
Proof.
  intros. destruct scale_to_fit_cases as [(?&?&->)|[(?&?&?)|(?&?&?)]];
    [done|lia|lia].
Qed.

Lemma scale_to_fit_aspect : same_aspect_within_rounding img scaled.
Proof.
  unfold same_aspect_within_rounding.
  destruct scale_to_fit_cases as [(?&?&->)|[(?&?&->)|(?&?&->)]].
  - replace (width img * height img - height img * width img) with 0 by lia.
    simpl. lia.
  - rewrite width_Resized, height_Resized.
    pose proof (Z.mul_div_le (height img * max_width) (width img)).
    pose proof (Z.mul_succ_div_gt (height img * max_width) (width img)).
    lia.
  - rewrite width_Resized, height_Resized.
    pose proof (Z.mul_div_le (width img * max_height) (height img)).
    pose proof (Z.mul_succ_div_gt (width img * max_height) (height img)).
    lia.
Qed.

End ScaleToFit.

(** ** Messages built by [process_batch_element] *)

Lemma sample_prompts_wf : registry_wf Toy.sample_prompts.
Proof.
  intros k t. unfold Toy.sample_prompts.
  rewrite !lookup_insert_Some, lookup_empty.
  intros [[_ <-]|[_ [[_ <-]|[_ ?]]]]; done.
Qed.

(** C3.  An item without a prompt of its own gets, as the text of its
    message, the template registered for its [prompt_type] with the
    placeholder replaced by [str(bbox_scale)]: the text is what
    [str.replace] returns, which is the template cut at every occurrence
    of [{bbox_scale}] and joined again with the scale; and, the registered
    template holding the placeholder, the text differs from the template
    whenever [str(bbox_scale)] is not the placeholder itself. *)
Theorem template_prompt_rendered {Text Vision Encoding : Type}
    (PROMPT_MAPPING : gmap string string) (item : BatchInputItem)
    (processor : Processor Text Vision Encoding) (bbox_scale : Z)
    (template : string) :
  registry_wf PROMPT_MAPPING →
  truthy (prompt item) = false →
  PROMPT_MAPPING !! prompt_type item = Some template →
  ∃ text,
    process_batch_element PROMPT_MAPPING item processor bbox_scale
    = Ok {| role := "user";
            content := [ImageBlock (scale_to_fit (image item) (1536, 1024));
                        TextBlock text] |}
    ∧ text = str_replace template "{bbox_scale}" (str bbox_scale)
    ∧ (∀ pieces,
         Forall (λ p, contains "{bbox_scale}" p = false) pieces →
         template = String.concat "{bbox_scale}" pieces →
         text = String.concat (str bbox_scale) pieces)
    ∧ (str bbox_scale ≠ "{bbox_scale}" → text ≠ template).
Proof.
  intros Hwf Hp Ht. eexists. split; [by apply process_template|].
  split; [done|]. split.
  - intros pieces Hfree ->. rewrite str_replace_placeholder.
    apply replace_scan_join; [done|apply placeholder_unbordered|done].
  - intros Hne. rewrite str_replace_placeholder.
    apply replace_scan_changes; [done|done|]. by eapply Hwf.
Qed.

Lemma template_prompt_rendered_witness :
  ∃ text,
    process_batch_element Toy.sample_prompts Toy.page Toy.toy_processor 1000
    = Ok {| role := "user";
            content := [ImageBlock (Raster 800 600 2); TextBlock text] |}
    ∧ text = "OCR this image, coordinates up to 1000 (1000 wide)."
    ∧ text ≠ "OCR this image, coordinates up to {bbox_scale} ({bbox_scale} wide).".
Proof.
  destruct (template_prompt_rendered Toy.sample_prompts Toy.page
              Toy.toy_processor 1000
              "OCR this image, coordinates up to {bbox_scale} ({bbox_scale} wide)."
              sample_prompts_wf eq_refl eq_refl)
    as (text & Hmsg & Htext & _ & Hdiff).
  exists text. split; [exact Hmsg|]. split; [exact Htext|].
  apply Hdiff. discriminate.
Defined.

(** C4 (as amended).  A non-empty prompt of the item's own is the text of
    its message, whatever the registry holds under the item's
    [prompt_type], even nothing.  An empty prompt is falsy and counts as
    absent. *)
Theorem own_prompt_used_verbatim {Text Vision Encoding : Type}
    (PROMPT_MAPPING : gmap string string) (item : BatchInputItem)
    (processor : Processor Text Vision Encoding) (bbox_scale : Z)
    (text : string) :
  prompt item = Some text → text ≠ "" →
  process_batch_element PROMPT_MAPPING item processor bbox_scale
  = Ok {| role := "user";
          content := [ImageBlock (scale_to_fit (image item) (1536, 1024));
                      TextBlock text] |}.
Proof. apply process_own_prompt. Qed.

Lemma own_prompt_used_verbatim_witness :
  process_batch_element Toy.sample_prompts Toy.chart Toy.toy_processor 1000
  = Ok {| role := "user";
          content := [ImageBlock (Resized (Raster 3000 1000 1) 1536 512);
                      TextBlock "Describe this chart"] |}.
Proof.
  apply (own_prompt_used_verbatim Toy.sample_prompts Toy.chart
           Toy.toy_processor 1000 "Describe this chart" eq_refl).
  discriminate.
Defined.

(** C4 as stated fails: the explicit prompt [""] is not used; the message
    carries the rendered template instead. *)
Lemma empty_prompt_not_verbatim :
  prompt Toy.blank_prompt = Some ""
  ∧ process_batch_element Toy.sample_prompts Toy.blank_prompt
      Toy.toy_processor 1000
    = Ok {| role := "user";
            content := [ImageBlock (Raster 10 10 3);
                        TextBlock "OCR this image, coordinates up to 1000 (1000 wide)."] |}
  ∧ ¬ (∃ img,
         process_batch_element Toy.sample_prompts Toy.blank_prompt
           Toy.toy_processor 1000
         = Ok {| role := "user";
                 content := [ImageBlock img; TextBlock ""] |}).
Proof.
  split; [reflexivity|]. split; [reflexivity|].
  intros [img H]. vm_compute in H. discriminate H.
Qed.

(** C5.  The image of the message is [scale_to_fit] of the item's image
    with the cap (1536, 1024): within the cap, never larger than the
    original on either side, of the same aspect ratio up to rounding, and
    the original itself when that is within the cap already. *)
Theorem message_image_capped {Text Vision Encoding : Type}
    (PROMPT_MAPPING : gmap string string) (item : BatchInputItem)
    (processor : Processor Text Vision Encoding) (bbox_scale : Z)
    (message : Message) :
  0 ≤ width (image item) → 0 ≤ height (image item) →
  process_batch_element PROMPT_MAPPING item processor bbox_scale = Ok message →
  ∃ scaled text,
    content message = [ImageBlock scaled; TextBlock text]
    ∧ scaled = scale_to_fit (image item) (1536, 1024)
    ∧ width scaled ≤ 1536 ∧ height scaled ≤ 1024
    ∧ width scaled ≤ width (image item)
    ∧ height scaled ≤ height (image item)
    ∧ same_aspect_within_rounding (image item) scaled
    ∧ (width (image item) ≤ 1536 → height (image item) ≤ 1024 →
       scaled = image item).
Proof.
  intros Hw Hh Hmsg.
  assert (∃ text, content message
                  = [ImageBlock (scale_to_fit (image item) (1536, 1024));
                     TextBlock text]) as [text Hc].
  { destruct (unresolvable PROMPT_MAPPING item) eqn:Hu.
    - by rewrite process_unresolvable in Hmsg.
    - unfold unresolvable in Hu.
      destruct (truthy (prompt item)) eqn:Hp.
      + apply truthy_Some in Hp as (s & Hs & Hne).
        rewrite (process_own_prompt _ _ _ _ s) in Hmsg by done.
        injection Hmsg as <-. by eexists.
      + simpl in Hu. apply bool_decide_eq_false in Hu.
        destruct (PROMPT_MAPPING !! prompt_type item) as [t|] eqn:Ht; [|done].
        rewrite (process_template _ _ _ _ t) in Hmsg by done.
        injection Hmsg as <-. by eexists. }
  exists (scale_to_fit (image item) (1536, 1024)), text.
  split; [done|]. split; [done|].
  pose proof (scale_to_fit_within (image item) 1536 1024) as [? ?]; [lia..|].
  pose proof (scale_to_fit_never_enlarges (image item) 1536 1024) as [? ?]; [lia..|].
  repeat split; try done.
  - apply scale_to_fit_aspect; lia.
  - apply scale_to_fit_unchanged; lia.
Qed.

Lemma message_image_capped_witness :
  ∃ scaled text,
    content {| role := "user";
               content := [ImageBlock (Resized (Raster 3000 1000 1) 1536 512);
                           TextBlock "Describe this chart"] |}
    = [ImageBlock scaled; TextBlock text]
    ∧ width scaled ≤ 1536 ∧ height scaled ≤ 1024.
Proof.
  destruct (message_image_capped Toy.sample_prompts Toy.chart
              Toy.toy_processor 1000
              {| role := "user";
                 content := [ImageBlock (Resized (Raster 3000 1000 1) 1536 512);
                             TextBlock "Describe this chart"] |})
    as (scaled & text & Hc & _ & Hw & Hh & _).
  - vm_compute. discriminate.
  - vm_compute. discriminate.
  - reflexivity.
  - exists scaled, text. split; [exact Hc|]. split; [exact Hw|exact Hh].
Defined.

(** C7.  Whatever the item, [process_batch_element] either returns a
    message of role ["user"] whose content is the image block followed by
    the text block, or raises the [KeyError] of a missing template. *)
Theorem message_shape {Text Vision Encoding : Type}
    (PROMPT_MAPPING : gmap string string) (item : BatchInputItem)
    (processor : Processor Text Vision Encoding) (bbox_scale : Z) :
  match process_batch_element PROMPT_MAPPING item processor bbox_scale with
  | Ok message =>
      role message = "user"
      ∧ ∃ img text, content message = [ImageBlock img; TextBlock text]
  | Raise e =>
      e = KeyError (prompt_type item)
      ∧ truthy (prompt item) = false
      ∧ PROMPT_MAPPING !! prompt_type item = None
  end.
Proof.
  destruct (truthy (prompt item)) eqn:Hp.
  - apply truthy_Some in Hp as (s & Hs & Hne).
    rewrite (process_own_prompt _ _ _ _ s) by done. split; [done|]. by eexists _, _.
  - destruct (PROMPT_MAPPING !! prompt_type item) as [t|] eqn:Ht.
    + rewrite (process_template _ _ _ _ t) by done. split; [done|]. by eexists _, _.
    + by rewrite process_missing_template.
Qed.

(** ** [generate_hf] *)

Section Generation.
Context {Text Vision Encoding : Type}.
Variable PROMPT_MAPPING : gmap string string.
Variable settings : Settings.
Variable rt : Runtime Vision Encoding.
Implicit Types (batch : list BatchInputItem) (model : Model Text Vision Encoding).

(** [generate_hf] is the preparation followed by generation, trimming,
    decoding and wrapping. *)
Lemma generate_hf_unfold batch model max_output_tokens bbox_scale :
  generate_hf PROMPT_MAPPING settings rt batch model max_output_tokens bbox_scale
  = prepared ← prepare_inputs PROMPT_MAPPING rt batch model bbox_scale;
    generated_ids ←
      generate model prepared.2 (token_budget settings max_output_tokens);
    output_text ←
      batch_decode (processor model)
        (trim_prompts (input_ids rt prepared.2) generated_ids);
    mret (wrap_results output_text
            (trim_prompts (input_ids rt prepared.2) generated_ids)).
Proof.
  unfold generate_hf, prepare_inputs.
  destruct (mapM _ batch) as [messages|]; [|done]. cbn [mbind result_bind].
  destruct (apply_chat_template _ _) as [text|]; [|done]. cbn [mbind result_bind].
  destruct (process_vision_info _ _) as [vis|]; [|done]. cbn [mbind result_bind].
  destruct (tokenize _ _ _) as [enc|]; [|done]. cbn [mbind result_bind].
  destruct (to _ _ _) as [inputs|]; done.
Qed.

Lemma prepare_inputs_Ok_inv batch model bbox_scale messages inputs :
  prepare_inputs PROMPT_MAPPING rt batch model bbox_scale = Ok (messages, inputs) →
  mapM (λ item, process_batch_element PROMPT_MAPPING item (processor model) bbox_scale)
       batch = Ok messages
  ∧ ∃ text image_inputs host_inputs,
      apply_chat_template (processor model) messages = Ok text
      ∧ process_vision_info rt messages = Ok image_inputs
      ∧ tokenize (processor model) text image_inputs = Ok host_inputs
      ∧ to rt host_inputs "cuda" = Ok inputs.
Proof.
  unfold prepare_inputs.
  intros (ms & Hms & H)%bind_Ok_inv.
  apply bind_Ok_inv in H as (text & Htext & H).
  apply bind_Ok_inv in H as (vis & Hvis & H).
  apply bind_Ok_inv in H as (enc & Henc & H).
  apply bind_Ok_inv in H as (inputs' & Hto & [= <- <-]).
  split; [done|]. by exists text, vis, enc.
Qed.

(** A call that returns went through every step without an exception. *)
Lemma generate_hf_Ok_inv batch model max_output_tokens bbox_scale results :
  generate_hf PROMPT_MAPPING settings rt batch model max_output_tokens bbox_scale
  = Ok results →
  ∃ messages inputs generated_ids output_text,
    prepare_inputs PROMPT_MAPPING rt batch model bbox_scale = Ok (messages, inputs)
    ∧ generate model inputs (token_budget settings max_output_tokens)
      = Ok generated_ids
    ∧ batch_decode (processor model)
        (trim_prompts (input_ids rt inputs) generated_ids) = Ok output_text
    ∧ results = wrap_results output_text
                  (trim_prompts (input_ids rt inputs) generated_ids).
Proof.
  rewrite generate_hf_unfold.
  intros ([messages inputs] & Hprep & H)%bind_Ok_inv.
  apply bind_Ok_inv in H as (generated_ids & Hgen & H).
  apply bind_Ok_inv in H as (output_text & Hdec & [= <-]).
  by exists messages, inputs, generated_ids, output_text.
Qed.

(** The exception of a failing step is the outcome of the call. *)
Lemma generate_hf_prepare_raises batch model max_output_tokens bbox_scale e :
  prepare_inputs PROMPT_MAPPING rt batch model bbox_scale = Raise e →
  generate_hf PROMPT_MAPPING settings rt batch model max_output_tokens bbox_scale
  = Raise e.
Proof. intros H. by rewrite generate_hf_unfold, H. Qed.

Lemma generate_hf_generate_raises batch model max_output_tokens bbox_scale
    messages inputs e :
  prepare_inputs PROMPT_MAPPING rt batch model bbox_scale = Ok (messages, inputs) →
  generate model inputs (token_budget settings max_output_tokens) = Raise e →
  generate_hf PROMPT_MAPPING settings rt batch model max_output_tokens bbox_scale
  = Raise e.
Proof. intros Hp Hg. rewrite generate_hf_unfold, Hp. simpl. by rewrite Hg. Qed.

Lemma generate_hf_decode_raises batch model max_output_tokens bbox_scale
    messages inputs generated_ids e :
  prepare_inputs PROMPT_MAPPING rt batch model bbox_scale = Ok (messages, inputs) →
  generate model inputs (token_budget settings max_output_tokens)
  = Ok generated_ids →
  batch_decode (processor model)
    (trim_prompts (input_ids rt inputs) generated_ids) = Raise e →
  generate_hf PROMPT_MAPPING settings rt batch model max_output_tokens bbox_scale
  = Raise e.
Proof.
  intros Hp Hg Hd. rewrite generate_hf_unfold, Hp. simpl. rewrite Hg. simpl.
  by rewrite Hd.
Qed.

(** Steps that all succeed make the call return what they computed. *)
Lemma prepare_inputs_Ok batch model bbox_scale
    messages text image_inputs host_inputs inputs :
  mapM (λ item, process_batch_element PROMPT_MAPPING item (processor model) bbox_scale)
       batch = Ok messages →
  apply_chat_template (processor model) messages = Ok text →
  process_vision_info rt messages = Ok image_inputs →
  tokenize (processor model) text image_inputs = Ok host_inputs →
  to rt host_inputs "cuda" = Ok inputs →
  prepare_inputs PROMPT_MAPPING rt batch model bbox_scale = Ok (messages, inputs).
Proof.
  intros Hms Ht Hv Hh Hi. unfold prepare_inputs.
  rewrite Hms. cbn [mbind result_bind]. rewrite Ht. cbn [mbind result_bind].
  rewrite Hv. cbn [mbind result_bind]. rewrite Hh. cbn [mbind result_bind].
  by rewrite Hi.
Qed.

Lemma prepare_inputs_move_raises batch model bbox_scale
    messages text image_inputs host_inputs e :
  mapM (λ item, process_batch_element PROMPT_MAPPING item (processor model) bbox_scale)
       batch = Ok messages →
  apply_chat_template (processor model) messages = Ok text →
  process_vision_info rt messages = Ok image_inputs →
  tokenize (processor model) text image_inputs = Ok host_inputs →
  to rt host_inputs "cuda" = Raise e →
  prepare_inputs PROMPT_MAPPING rt batch model bbox_scale = Raise e.
Proof.
  intros Hms Ht Hv Hh Hi. unfold prepare_inputs.
  rewrite Hms. cbn [mbind result_bind]. rewrite Ht. cbn [mbind result_bind].
  rewrite Hv. cbn [mbind result_bind]. rewrite Hh. cbn [mbind result_bind].
  by rewrite Hi.
Qed.

Lemma generate_hf_run batch model max_output_tokens bbox_scale
    messages inputs generated_ids output_text :
  prepare_inputs PROMPT_MAPPING rt batch model bbox_scale = Ok (messages, inputs) →
  generate model inputs (token_budget settings max_output_tokens)
  = Ok generated_ids →
  batch_decode (processor model)
    (trim_prompts (input_ids rt inputs) generated_ids) = Ok output_text →
  generate_hf PROMPT_MAPPING settings rt batch model max_output_tokens bbox_scale
  = Ok (wrap_results output_text
          (trim_prompts (input_ids rt inputs) generated_ids)).
Proof.
  intros Hp Hg Hd. rewrite generate_hf_unfold, Hp. cbn [mbind result_bind snd].
  rewrite Hg. cbn [mbind result_bind]. by rewrite Hd.
Qed.

(** *** The two zips *)

Lemma trim_prompts_lookup (ids generated : list (list Z)) i trimmed :
  trim_prompts ids generated !! i = Some trimmed ↔
  ∃ in_ids out_ids,
    ids !! i = Some in_ids ∧ generated !! i = Some out_ids
    ∧ trimmed = drop (length in_ids) out_ids.
Proof.
  unfold trim_prompts. rewrite lookup_zip_with_Some.
  split; intros (x & y & ? & ? & ?); by exists x, y.
Qed.

Lemma wrap_results_lookup (output_text : list string) (trimmed : list (list Z)) i r :
  wrap_results output_text trimmed !! i = Some r ↔
  ∃ out ids,
    output_text !! i = Some out ∧ trimmed !! i = Some ids
    ∧ r = {| raw := out; token_count := Z.of_nat (length ids); error := false |}.
Proof.
  unfold wrap_results. rewrite lookup_zip_with_Some.
  split; intros (x & y & ? & ? & ?); by exists x, y.
Qed.

Lemma length_trim_prompts (ids generated : list (list Z)) :
  length (trim_prompts ids generated) = min (length ids) (length generated).
Proof. apply length_zip_with. Qed.

Lemma length_wrap_results (output_text : list string) (trimmed : list (list Z)) :
  length (wrap_results output_text trimmed)
  = min (length output_text) (length trimmed).
Proof. apply length_zip_with. Qed.

Lemma wrap_results_no_error (output_text : list string) (trimmed : list (list Z)) :
  Forall (λ r, error r = false) (wrap_results output_text trimmed).
Proof.
  apply Forall_lookup. intros i r (out & ids & _ & _ & ->)%wrap_results_lookup.
  done.
Qed.

End Generation.

(** *** The toy libraries keep one row per item *)

Lemma toy_row_per_item cuda : row_per_item (Toy.toy_runtime cuda) Toy.toy_model.
Proof.
  repeat split.
  - intros messages text vis inputs [= <-] _ [= <-]. simpl.
    unfold Toy.left_pad. by rewrite !length_fmap.
  - intros inputs dev inputs'. simpl.
    destruct (bool_decide _ && negb cuda); [done|]. by intros [= <-].
  - intros inputs n generated [= <-]. apply length_fmap.
  - intros seqs output_text [= <-]. apply length_fmap.
Qed.

(** *** Row by row through the two zips *)







(** C2.  When the steps of a call succeed, the call returns, and for every
    sequence, that is every index that has a row of input ids, a
    generated row and a decoded text: the sequence handed to
    [batch_decode] is the generated row without a prefix as long as the
    row of input ids, and the result at that index carries the decoded
    text and, as [token_count], the number of tokens left after the
    trim.  Every result is of this kind, and a call that returns is one
    whose steps all succeeded. *)
Theorem token_count_after_trim {Text Vision Encoding : Type}
    (PROMPT_MAPPING : gmap string string) (settings : Settings)
    (rt : Runtime Vision Encoding) (batch : list BatchInputItem)
    (model : Model Text Vision Encoding) (max_output_tokens : option Z)
    (bbox_scale : Z) :
  (∀ messages inputs generated_ids output_text,
     prepare_inputs PROMPT_MAPPING rt batch model bbox_scale
     = Ok (messages, inputs) →
     generate model inputs (token_budget settings max_output_tokens)
     = Ok generated_ids →
     batch_decode (processor model)
       (trim_prompts (input_ids rt inputs) generated_ids) = Ok output_text →
     ∃ results,
       generate_hf PROMPT_MAPPING settings rt batch model max_output_tokens
         bbox_scale = Ok results
       ∧ (∀ i in_ids out_ids out,
            input_ids rt inputs !! i = Some in_ids →
            generated_ids !! i = Some out_ids →
            output_text !! i = Some out →
            trim_prompts (input_ids rt inputs) generated_ids !! i
            = Some (drop (length in_ids) out_ids)
            ∧ (length in_ids ≤ length out_ids →
               out_ids
               = (take (length in_ids) out_ids
                  ++ drop (length in_ids) out_ids)%list
               ∧ length (take (length in_ids) out_ids) = length in_ids)%nat
            ∧ length (drop (length in_ids) out_ids)
              = (length out_ids - length in_ids)%nat
            ∧ results !! i
              = Some {| raw := out;
                        token_count :=
                          Z.of_nat (length (drop (length in_ids) out_ids));
                        error := false |})
       ∧ (∀ i r,
            results !! i = Some r →
            ∃ in_ids out_ids,
              input_ids rt inputs !! i = Some in_ids
              ∧ generated_ids !! i = Some out_ids
              ∧ output_text !! i = Some (raw r)
              ∧ token_count r
                = Z.of_nat (length (drop (length in_ids) out_ids))))
  ∧ (∀ results,
       generate_hf PROMPT_MAPPING settings rt batch model max_output_tokens
         bbox_scale = Ok results →
       ∃ messages inputs generated_ids output_text,
         prepare_inputs PROMPT_MAPPING rt batch model bbox_scale
         = Ok (messages, inputs)
         ∧ generate model inputs (token_budget settings max_output_tokens)
           = Ok generated_ids
         ∧ batch_decode (processor model)
             (trim_prompts (input_ids rt inputs) generated_ids)
           = Ok output_text).
Proof.
  split.
  - intros messages inputs generated_ids output_text Hprep Hg Hd.
    eexists. split; [by eapply generate_hf_run|]. split.
    + intros i in_ids out_ids out Hin Hout Htxt.
      assert (trim_prompts (input_ids rt inputs) generated_ids !! i
              = Some (drop (length in_ids) out_ids)) as Htrim.
      { apply trim_prompts_lookup. by exists in_ids, out_ids. }
      split; [done|]. split.
      { intros Hle. split; [by rewrite take_drop|]. rewrite length_take. lia. }
      split; [apply length_drop|].
      apply wrap_results_lookup. by eexists _, _.
    + intros i r (out & ids & Hout & Hids & ->)%wrap_results_lookup.
      apply trim_prompts_lookup in Hids as (in_ids & out_ids & Hin & Hgi & ->).
      by exists in_ids, out_ids.
  - intros results Hrun.
    destruct (generate_hf_Ok_inv _ _ _ _ _ _ _ _ Hrun)
      as (messages & inputs & generated_ids & output_text
          & Hprep & Hg & Hd & _).
    by exists messages, inputs, generated_ids, output_text.
Qed.

Lemma token_count_after_trim_witness :
  ∃ results,
    generate_hf Toy.sample_prompts Toy.sample_settings (Toy.toy_runtime true)
      [Toy.chart; Toy.page] Toy.toy_model None 1000 = Ok results
    ∧ results !! 0%nat
      = Some {| raw := "trah"; token_count := Z.of_nat (62 - 58);
                error := false |}.
Proof.
  destruct (token_count_after_trim Toy.sample_prompts Toy.sample_settings
              (Toy.toy_runtime true) [Toy.chart; Toy.page] Toy.toy_model
              None 1000) as [Hrun _].
  destruct (prepare_inputs Toy.sample_prompts (Toy.toy_runtime true)
              [Toy.chart; Toy.page] Toy.toy_model 1000)
    as [[messages inputs]|e] eqn:Hprep; [|vm_compute in Hprep; discriminate Hprep].
  destruct (Hrun messages inputs _ _ eq_refl eq_refl eq_refl)
    as (results & Hres & Hrows & _).
  exists results. split; [exact Hres|].
  vm_compute in Hprep. injection Hprep as <- <-.
  destruct (Hrows 0%nat _ _ _ eq_refl eq_refl eq_refl) as (_ & _ & _ & Hr).
  exact Hr.
Defined.

(** *** Failures *)

Lemma first_unresolvable_split (PROMPT_MAPPING : gmap string string)
    (batch : list BatchInputItem) (item : BatchInputItem) :
  item ∈ batch → unresolvable PROMPT_MAPPING item = true →
  ∃ l1 x l2,
    batch = (l1 ++ x :: l2)%list
    ∧ Forall (λ y, unresolvable PROMPT_MAPPING y = false) l1
    ∧ unresolvable PROMPT_MAPPING x = true
    ∧ first_unresolvable PROMPT_MAPPING batch = Some (prompt_type x).
Proof.
  intros Hin Hbad. unfold first_unresolvable.
  induction batch as [|x0 l IH]; [by apply elem_of_nil in Hin|].
  destruct (unresolvable PROMPT_MAPPING x0) eqn:Hx0.
  - exists [], x0, l. rewrite filter_cons_True by done. by repeat split.
  - apply elem_of_cons in Hin as [->|Hin]; [congruence|].
    destruct (IH Hin) as (l1 & x & l2 & -> & Hl1 & Hx & Hfirst).
    exists (x0 :: l1), x, l2.
    rewrite filter_cons_False by congruence.
    repeat split; [by constructor|done|done].
Qed.

(** C10.  One item with no usable prompt of its own and an unregistered
    [prompt_type] is enough: building the messages raises the [KeyError]
    of the first such item, and that is the outcome of [generate_hf] with
    every model and runtime, so no library call decides it. *)
Theorem unresolvable_prompt_aborts_batch {Text Vision Encoding : Type}
    (PROMPT_MAPPING : gmap string string) (settings : Settings)
    (rt : Runtime Vision Encoding) (batch : list BatchInputItem)
    (model : Model Text Vision Encoding) (max_output_tokens : option Z)
    (bbox_scale : Z) (item : BatchInputItem) :
  item ∈ batch →
  truthy (prompt item) = false →
  PROMPT_MAPPING !! prompt_type item = None →
  ∃ key,
    first_unresolvable PROMPT_MAPPING batch = Some key
    ∧ mapM (λ item,
              process_batch_element PROMPT_MAPPING item (processor model) bbox_scale)
           batch = Raise (KeyError key)
    ∧ generate_hf PROMPT_MAPPING settings rt batch model max_output_tokens
        bbox_scale = Raise (KeyError key).
Proof.
  intros Hin Hp Ht.
  assert (unresolvable PROMPT_MAPPING item = true) as Hbad.
  { unfold unresolvable. rewrite Hp. simpl. by apply bool_decide_eq_true. }
  destruct (first_unresolvable_split _ _ _ Hin Hbad)
    as (l1 & x & l2 & -> & Hl1 & Hx & Hfirst).
  exists (prompt_type x). split; [done|].
  assert (mapM (λ item, process_batch_element PROMPT_MAPPING item
                          (processor model) bbox_scale) (l1 ++ x :: l2)
          = Raise (KeyError (prompt_type x))) as Hms.
  { apply mapM_Raise_first.
    - eapply Forall_impl; [exact Hl1|]. intros y Hy. by apply process_resolvable.
    - by apply process_unresolvable. }
  split; [done|].
  apply generate_hf_prepare_raises. unfold prepare_inputs. by rewrite Hms.
Qed.

Lemma unresolvable_prompt_aborts_batch_witness :
  generate_hf Toy.sample_prompts Toy.sample_settings (Toy.toy_runtime true)
    [Toy.chart; Toy.unknown_type; Toy.page] Toy.toy_model None 1000
  = Raise (KeyError "table").
Proof.
  destruct (unresolvable_prompt_aborts_batch Toy.sample_prompts
              Toy.sample_settings (Toy.toy_runtime true)
              [Toy.chart; Toy.unknown_type; Toy.page] Toy.toy_model None 1000
              Toy.unknown_type)
    as (key & Hkey & _ & Hrun).
  - apply elem_of_cons. right. apply elem_of_cons. by left.
  - reflexivity.
  - reflexivity.
  - vm_compute in Hkey. injection Hkey as <-. exact Hrun.
Defined.

(** C8.  Every result of a call that returns has [error = false]; and an
    exception of any step (the preparation, the generation or the
    decoding) is the outcome of the whole call, which then returns no
    result at all. *)
Theorem no_partial_failure {Text Vision Encoding : Type}
    (PROMPT_MAPPING : gmap string string) (settings : Settings)
    (rt : Runtime Vision Encoding) (batch : list BatchInputItem)
    (model : Model Text Vision Encoding) (max_output_tokens : option Z)
    (bbox_scale : Z) :
  let outcome :=
    generate_hf PROMPT_MAPPING settings rt batch model max_output_tokens
      bbox_scale in
  (∀ results, outcome = Ok results → Forall (λ r, error r = false) results)
  ∧ (∀ messages inputs e,
       prepare_inputs PROMPT_MAPPING rt batch model bbox_scale
       = Ok (messages, inputs) →
       generate model inputs (token_budget settings max_output_tokens)
       = Raise e →
       outcome = Raise e)
  ∧ (∀ e,
       prepare_inputs PROMPT_MAPPING rt batch model bbox_scale = Raise e →
       outcome = Raise e)
  ∧ (∀ messages inputs generated_ids e,
       prepare_inputs PROMPT_MAPPING rt batch model bbox_scale
       = Ok (messages, inputs) →
       generate model inputs (token_budget settings max_output_tokens)
       = Ok generated_ids →
       batch_decode (processor model)
         (trim_prompts (input_ids rt inputs) generated_ids) = Raise e →
       outcome = Raise e).
Proof.
  intros outcome. subst outcome. split; [|split; [|split]].
  - intros results Hrun.
    destruct (generate_hf_Ok_inv _ _ _ _ _ _ _ _ Hrun)
      as (? & ? & ? & ? & _ & _ & _ & ->).
    apply wrap_results_no_error.
  - intros messages inputs e. apply generate_hf_generate_raises.
  - intros e. apply generate_hf_prepare_raises.
  - intros messages inputs generated_ids e. apply generate_hf_decode_raises.
Qed.

Lemma no_partial_failure_witness :
  generate_hf Toy.sample_prompts Toy.sample_settings (Toy.toy_runtime true)
    [Toy.chart; Toy.page] Toy.oom_model None 1000
  = Raise (LibraryError "CUDA out of memory").
Proof.
  destruct (no_partial_failure Toy.sample_prompts Toy.sample_settings
              (Toy.toy_runtime true) [Toy.chart; Toy.page] Toy.oom_model
              None 1000) as (_ & Hgen & _).
  destruct (prepare_inputs Toy.sample_prompts (Toy.toy_runtime true)
              [Toy.chart; Toy.page] Toy.oom_model 1000)
    as [[messages inputs]|e] eqn:Hprep.
  - apply (Hgen messages inputs); reflexivity.
  - vm_compute in Hprep. discriminate Hprep.
Defined.

(** C9.  Whatever device the handle was loaded on, what [generate_hf]
    moves is the output of the tokenizer, and where it moves it is the
    literal ["cuda"]: an exception of that move is the outcome of the
    call; when it succeeds, generation, trimming and decoding work on the
    moved inputs; and what the runtime does for any other device has no
    bearing on the outcome.  On a machine without CUDA, where torch
    refuses that move, every call raises. *)
Theorem generate_hf_needs_cuda {Text Vision Encoding : Type}
    (PROMPT_MAPPING : gmap string string) (settings : Settings)
    (rt : Runtime Vision Encoding) (hub : Transformers Text Vision Encoding)
    (model : Model Text Vision Encoding) (batch : list BatchInputItem)
    (max_output_tokens : option Z) (bbox_scale : Z) :
  load_model settings rt hub = Ok model →
  (∀ messages text image_inputs host_inputs,
     mapM (λ item,
             process_batch_element PROMPT_MAPPING item (processor model)
               bbox_scale) batch = Ok messages →
     apply_chat_template (processor model) messages = Ok text →
     process_vision_info rt messages = Ok image_inputs →
     tokenize (processor model) text image_inputs = Ok host_inputs →
     (∀ e,
        to rt host_inputs "cuda" = Raise e →
        generate_hf PROMPT_MAPPING settings rt batch model max_output_tokens
          bbox_scale = Raise e)
     ∧ (∀ inputs generated_ids output_text,
          to rt host_inputs "cuda" = Ok inputs →
          generate model inputs (token_budget settings max_output_tokens)
          = Ok generated_ids →
          batch_decode (processor model)
            (trim_prompts (input_ids rt inputs) generated_ids)
          = Ok output_text →
          generate_hf PROMPT_MAPPING settings rt batch model max_output_tokens
            bbox_scale
          = Ok (wrap_results output_text
                  (trim_prompts (input_ids rt inputs) generated_ids))))
  ∧ (∀ rt' : Runtime Vision Encoding,
       process_vision_info rt' = process_vision_info rt →
       input_ids rt' = input_ids rt →
       (∀ inputs, to rt' inputs "cuda" = to rt inputs "cuda") →
       generate_hf PROMPT_MAPPING settings rt' batch model max_output_tokens
         bbox_scale
       = generate_hf PROMPT_MAPPING settings rt batch model max_output_tokens
           bbox_scale)
  ∧ (cuda_required rt → cuda_is_available rt = false →
     raises (generate_hf PROMPT_MAPPING settings rt batch model
               max_output_tokens bbox_scale)).
Proof.
  intros _. split; [|split].
  - intros messages text vis host Hms Ht Hv Hh. split.
    + intros e He. apply generate_hf_prepare_raises.
      by eapply prepare_inputs_move_raises.
    + intros inputs generated_ids output_text Hi Hg Hd.
      apply (generate_hf_run _ _ _ _ _ _ _ messages); [|done..].
      by eapply prepare_inputs_Ok.
  - intros rt' Hvis Hids Hto. unfold generate_hf. rewrite Hvis, Hids.
    destruct (mapM _ batch) as [messages|]; [|done]. cbn [mbind result_bind].
    destruct (apply_chat_template _ _) as [text|]; [|done]. cbn [mbind result_bind].
    destruct (process_vision_info rt messages) as [vis|]; [|done].
    cbn [mbind result_bind].
    destruct (tokenize _ _ _) as [host|]; [|done]. cbn [mbind result_bind].
    by rewrite Hto.
  - intros Hreq Hno.
    destruct (generate_hf _ _ _ _ _ _ _) as [results|e] eqn:Hrun; [|by exists e].
    destruct (generate_hf_Ok_inv _ _ _ _ _ _ _ _ Hrun)
      as (messages & inputs & ? & ? & Hprep & _).
    destruct (prepare_inputs_Ok_inv _ _ _ _ _ _ _ Hprep)
      as (_ & ? & ? & host & _ & _ & _ & Hto).
    destruct (Hreq Hno host) as [e He]. congruence.
Qed.

Lemma toy_cuda_required : cuda_required (Toy.toy_runtime false).
Proof. intros _ inputs. by eexists. Qed.

Lemma generate_hf_needs_cuda_witness :
  TORCH_DEVICE Toy.sample_settings = Some "cpu"
  ∧ load_model_kwargs Toy.sample_settings (Toy.toy_runtime false) !! "device_map"
    = Some (VDict [(KStr "", "cpu")])
  ∧ raises (generate_hf Toy.sample_prompts Toy.sample_settings
              (Toy.toy_runtime false) [Toy.chart; Toy.page] Toy.toy_model
              None 1000).
Proof.
  split; [reflexivity|]. split; [vm_compute; reflexivity|].
  destruct (generate_hf_needs_cuda Toy.sample_prompts Toy.sample_settings
              (Toy.toy_runtime false) Toy.toy_hub Toy.toy_model
              [Toy.chart; Toy.page] None 1000 eq_refl) as (_ & _ & Hfail).
  apply Hfail; [exact toy_cuda_required|reflexivity].
Defined.

(** ** [load_model] *)

Section LoadingFacts.
Context {Vision Encoding : Type}.
Variable settings : Settings.
Variable rt : Runtime Vision Encoding.

(** The keys the precision policy writes, read back. *)
Lemma load_model_kwargs_quantized :
  USE_8BIT_QUANTIZATION settings && cuda_is_available rt = true →
  quantized_kwargs (load_model_kwargs settings rt)
  ∧ ¬ full_precision_kwargs (load_model_kwargs settings rt).
Proof.
  intros Hq. unfold quantized_kwargs, full_precision_kwargs, load_model_kwargs.
  rewrite Hq.
  destruct (truthy (TORCH_ATTN settings)); simplify_map_eq;
    (split; [done|by intros (? & ? & ?)]).
Qed.

Lemma load_model_kwargs_full_precision :
  USE_8BIT_QUANTIZATION settings && cuda_is_available rt = false →
  full_precision_kwargs (load_model_kwargs settings rt)
  ∧ ¬ quantized_kwargs (load_model_kwargs settings rt).
Proof.
  intros Hq. unfold quantized_kwargs, full_precision_kwargs, load_model_kwargs.
  rewrite Hq.
  destruct (truthy (TORCH_ATTN settings)); simplify_map_eq;
    (split; [done|by intros (? & ? & ?)]).
Qed.

End LoadingFacts.

(** C6.  The keyword arguments are those of the quantized path exactly
    when the 8-bit flag is set and CUDA is available, those of the
    full-precision path exactly otherwise, and never both. *)
Theorem quantization_excludes_float32 {Vision Encoding : Type}
    (settings : Settings) (rt : Runtime Vision Encoding) :
  let kwargs := load_model_kwargs settings rt in
  (quantized_kwargs kwargs
   ↔ USE_8BIT_QUANTIZATION settings = true ∧ cuda_is_available rt = true)
  ∧ (full_precision_kwargs kwargs
     ↔ ¬ (USE_8BIT_QUANTIZATION settings = true ∧ cuda_is_available rt = true))
  ∧ ¬ (quantized_kwargs kwargs ∧ full_precision_kwargs kwargs).
Proof.
  intros kwargs. subst kwargs.
  destruct (USE_8BIT_QUANTIZATION settings && cuda_is_available rt) eqn:Hq.
  - destruct (load_model_kwargs_quantized settings rt Hq) as [Hyes Hno].
    apply andb_true_iff in Hq.
    split; [done|]. split; [|by intros [_ ?]].
    split; [done|]. by intros [].
  - destruct (load_model_kwargs_full_precision settings rt Hq) as [Hyes Hno].
    apply andb_false_iff in Hq.
    assert (¬ (USE_8BIT_QUANTIZATION settings = true
               ∧ cuda_is_available rt = true)) as Hnot.
    { intros [H1 H2]. destruct Hq; congruence. }
    split; [split; [done|by intros ?]|]. split; [done|]. by intros [? _].
Qed.

(** ** Further properties of the glue *)

(** X1.  Nothing in [generate_hf] compares the number of rows with the
    number of items: the two zips cut at the shortest list, so a call that
    returns gives as many results as the fewest of the decoded strings,
    the rows of input ids and the generated rows. *)
Theorem generate_hf_result_count {Text Vision Encoding : Type}
    (PROMPT_MAPPING : gmap string string) (settings : Settings)
    (rt : Runtime Vision Encoding) (batch : list BatchInputItem)
    (model : Model Text Vision Encoding) (max_output_tokens : option Z)
    (bbox_scale : Z) (results : list GenerationResult) :
  generate_hf PROMPT_MAPPING settings rt batch model max_output_tokens bbox_scale
  = Ok results →
  ∃ messages inputs generated_ids output_text,
    prepare_inputs PROMPT_MAPPING rt batch model bbox_scale
    = Ok (messages, inputs)
    ∧ generate model inputs (token_budget settings max_output_tokens)
      = Ok generated_ids
    ∧ batch_decode (processor model)
        (trim_prompts (input_ids rt inputs) generated_ids) = Ok output_text
    ∧ length results
      = min (length output_text)
            (min (length (input_ids rt inputs)) (length generated_ids)).
Proof.
  intros Hrun.
  destruct (generate_hf_Ok_inv _ _ _ _ _ _ _ _ Hrun)
    as (messages & inputs & generated_ids & output_text
        & Hprep & Hgen & Hdec & ->).
  exists messages, inputs, generated_ids, output_text.
  repeat (split; [done|]).
  by rewrite length_wrap_results, length_trim_prompts.
Qed.

Lemma generate_hf_result_count_witness :
  generate_hf Toy.sample_prompts Toy.sample_settings (Toy.toy_runtime true)
    [Toy.chart; Toy.page] Toy.merging_model None 1000
  = Ok [ {| raw := ".)ed"; token_count := 4; error := false |} ]
  ∧ ∃ inputs : Toy.Enc, length (Toy.rows inputs) = 1%nat.
Proof.
  assert (generate_hf Toy.sample_prompts Toy.sample_settings
            (Toy.toy_runtime true) [Toy.chart; Toy.page] Toy.merging_model
            None 1000
          = Ok [ {| raw := ".)ed"; token_count := 4; error := false |} ]) as Hrun.
  { vm_compute. reflexivity. }
  split; [exact Hrun|].
  destruct (generate_hf_result_count _ _ _ _ _ _ _ _ Hrun)
    as (messages & inputs & generated_ids & output_text & Hprep & _).
  exists inputs. vm_compute in Hprep. injection Hprep as _ <-. reflexivity.
Defined.

(** X2.  A registered template that does not hold the placeholder is the
    text of the message as it stands. *)
Theorem template_without_placeholder_kept {Text Vision Encoding : Type}
    (PROMPT_MAPPING : gmap string string) (item : BatchInputItem)
    (processor : Processor Text Vision Encoding) (bbox_scale : Z)
    (template : string) :
  truthy (prompt item) = false →
  PROMPT_MAPPING !! prompt_type item = Some template →
  contains "{bbox_scale}" template = false →
  process_batch_element PROMPT_MAPPING item processor bbox_scale
  = Ok {| role := "user";
          content := [ImageBlock (scale_to_fit (image item) (1536, 1024));
                      TextBlock template] |}.
Proof.
  intros Hp Ht Hfree. rewrite (process_template _ _ _ _ template) by done.
  by rewrite str_replace_placeholder, replace_scan_free.
Qed.

Lemma template_without_placeholder_kept_witness :
  process_batch_element Toy.plain_prompts Toy.page Toy.toy_processor 1000
  = Ok {| role := "user";
          content := [ImageBlock (Raster 800 600 2);
                      TextBlock "OCR this image to HTML."] |}.
Proof.
  exact (template_without_placeholder_kept Toy.plain_prompts Toy.page
           Toy.toy_processor 1000 "OCR this image to HTML."
           eq_refl eq_refl eq_refl).
Defined.

(** X4.  Placement and attention: the device map is ["auto"] unless a
    device is configured, which then takes every weight; the memory
    ceilings and the offload flag are fixed; the attention implementation
    is passed on only when configured. *)
Theorem placement_kwargs {Vision Encoding : Type}
    (settings : Settings) (rt : Runtime Vision Encoding) :
  let kwargs := load_model_kwargs settings rt in
  kwargs !! "device_map"
  = Some (if truthy (TORCH_DEVICE settings)
          then VDict [(KStr "", default "" (TORCH_DEVICE settings))]
          else VStr "auto")
  ∧ kwargs !! "max_memory"
    = Some (VDict [(KInt 0, "11GiB"); (KStr "cpu", "60GiB")])
  ∧ kwargs !! "offload_state_dict" = Some (VBool true)
  ∧ kwargs !! "attn_implementation"
    = (if truthy (TORCH_ATTN settings)
       then Some (VStr (default "" (TORCH_ATTN settings)))
       else None).
Proof.
  intros kwargs. subst kwargs. unfold load_model_kwargs.
  destruct (USE_8BIT_QUANTIZATION settings && cuda_is_available rt),
           (truthy (TORCH_ATTN settings)), (truthy (TORCH_DEVICE settings));
    by simplify_map_eq.
Qed.

(** X5.  The handle [load_model] returns carries the processor of the same
    checkpoint, and its model was loaded with the keyword arguments
    above. *)
Theorem load_model_handle {Text Vision Encoding : Type}
    (settings : Settings) (rt : Runtime Vision Encoding)
    (hub : Transformers Text Vision Encoding)
    (model : Model Text Vision Encoding) :
  load_model settings rt hub = Ok model →
  model_from_pretrained hub (MODEL_CHECKPOINT settings)
    (load_model_kwargs settings rt) = Ok (generate model)
  ∧ processor_from_pretrained hub (MODEL_CHECKPOINT settings)
    = Ok (processor model).
Proof.
  unfold load_model. intros (g & Hg & H)%bind_Ok_inv.
  apply bind_Ok_inv in H as (p & Hp & [= <-]). done.
Qed.

Lemma load_model_handle_witness :
  processor_from_pretrained Toy.toy_hub "datalab-to/chandra"
  = Ok (processor Toy.toy_model).
Proof.
  exact (proj2 (load_model_handle Toy.sample_settings (Toy.toy_runtime true)
                  Toy.toy_hub Toy.toy_model eq_refl)).
Defined.

(** ** What rendering leaves behind *)

Section Rendering.
Implicit Types s t old new o : string.

Lemma prefix_nil_l s : String.prefix "" s = true.
Proof. by destruct s. Qed.

Lemma prefix_cons_cons d o c s :
  String.prefix (String d o) (String c s) = true ↔ d = c ∧ String.prefix o s = true.
Proof.
  simpl. destruct (ascii_dec d c) as [->|Hne].
  - split; [by intros ?|by intros [_ ?]].
  - split; [done|]. by intros [? _].
Qed.

Lemma char_in_head c s : char_in c (String c s) = true.
Proof. simpl. by rewrite Ascii.eqb_refl. Qed.

Lemma char_in_tail c d s : char_in c (String d s) = false → char_in c s = false.
Proof. simpl. by intros [_ ?]%orb_false_iff. Qed.

(** A block of characters foreign to [old] cannot start a match. *)
Lemma prefix_foreign_head old c s :
  old ≠ "" → char_in c old = false → String.prefix old (String c s) = false.
Proof.
  intros Hne Hc. destruct old as [|d o]; [done|].
  destruct (String.prefix (String d o) (String c s)) eqn:E; [|done].
  apply prefix_cons_cons in E as [-> _]. by rewrite char_in_head in Hc.
Qed.

Lemma contains_foreign_block old new r :
  old ≠ "" → avoids new old = true →
  contains old (new +:+ r) = contains old r.
Proof.
  intros Hne. induction new as [|c new IH]; [done|].
  simpl avoids. rewrite andb_true_iff, negb_true_iff. intros [Hc Hnew].
  rewrite str_app_cons, contains_unfold, prefix_foreign_head by done.
  by apply IH.
Qed.

(** A prefix of the replaced string that cannot reach into a replacement
    is a prefix of the original. *)
Lemma prefix_before_replacement old c new s o :
  old ≠ "" → char_in c o = false →
  String.prefix o (replace_scan old (String c new) 0 s) = true →
  String.prefix o s = true.
Proof.
  intros Hne. revert o. induction s as [|a s IH]; intros o Hc; [done|].
  destruct (String.prefix old (String a s)) eqn:Hp.
  - destruct (prefix_inv _ _ Hp) as [t Ht]. rewrite Ht at 1.
    rewrite replace_scan_match, str_app_cons by done.
    destruct o as [|d o]; [by rewrite prefix_nil_l|].
    intros [-> _]%prefix_cons_cons. by rewrite char_in_head in Hc.
  - rewrite replace_scan_copy by done.
    destruct o as [|d o]; [by rewrite prefix_nil_l|].
    intros [-> Ho]%prefix_cons_cons. apply prefix_cons_cons. split; [done|].
    apply IH; [|done]. by eapply char_in_tail.
Qed.

(** Replacing by a non-empty string foreign to [old] leaves no match. *)
Lemma replace_scan_no_match old new skip s :
  old ≠ "" → new ≠ "" → avoids new old = true →
  contains old (replace_scan old new skip s) = false.
Proof.
  intros Hne Hnew Hav. revert skip.
  induction s as [|a s IH]; intros skip.
  - change (contains old "" = false). rewrite contains_nil. by destruct old.
  - destruct skip as [|k]; [|apply IH]. cbn [replace_scan].
    destruct (String.prefix old (String a s)) eqn:Hp.
    + rewrite contains_foreign_block by done. apply IH.
    + rewrite contains_unfold, IH, orb_false_r.
      destruct new as [|c new]; [done|].
      destruct (String.prefix old (String a (replace_scan old (String c new) 0 s)))
        eqn:E; [|done].
      rewrite <-(replace_scan_copy old (String c new)) in E by done.
      apply prefix_before_replacement in E; [congruence|done|].
      simpl in Hav. by apply andb_true_iff in Hav as [?%negb_true_iff _].
Qed.

(** With replacements of one length, equal results mean equal
    replacements. *)
Lemma replace_scan_same_length_inj old new1 new2 s :
  old ≠ "" → String.length new1 = String.length new2 →
  contains old s = true →
  replace_scan old new1 0 s = replace_scan old new2 0 s → new1 = new2.
Proof.
  intros Hne Hlen. induction s as [|a s IH].
  - rewrite contains_nil. by destruct old.
  - intros Hc. destruct (String.prefix old (String a s)) eqn:Hp.
    + destruct (prefix_inv _ _ Hp) as [t ->].
      rewrite !replace_scan_match by done.
      by intros [? _]%str_app_eq_length.
    + rewrite contains_unfold, Hp in Hc.
      rewrite !replace_scan_copy by done. intros [= Heq]. by apply IH.
Qed.

(** Two replacements give the same result only when they are the same. *)
Lemma replace_scan_inj old new1 new2 s :
  old ≠ "" → contains old s = true →
  replace_scan old new1 0 s = replace_scan old new2 0 s → new1 = new2.
Proof.
  intros Hne Hc Heq.
  apply (replace_scan_same_length_inj old new1 new2 s); try done.
  pose proof (replace_scan_length old new1 0 s Hne) as H1.
  pose proof (replace_scan_length old new2 0 s Hne) as H2.
  pose proof (count_scan_pos old s Hc Hne).
  rewrite Heq in H1. nia.
Qed.

End Rendering.

(** *** The decimal form of the scale *)

Lemma pretty_N_go_avoids (x : N) (s : string) :
  avoids s "{bbox_scale}" = true →
  avoids (pretty_N_go x s) "{bbox_scale}" = true.
Proof.
  revert s. induction (N.lt_wf_0 x) as [x _ IH]; intros s Hs.
  destruct (decide (x = 0)%N) as [->|Hx].
  - by rewrite pretty_N_go_0.
  - rewrite pretty_N_go_step by lia. apply IH.
    + apply N.div_lt; lia.
    + cbn [avoids]. rewrite Hs, andb_true_r.
      unfold pretty_N_char. by repeat case_match.
Qed.

Lemma pretty_N_go_nonempty (x : N) (s : string) :
  pretty_N_go x s = "" → s = "".
Proof.
  revert s. induction (N.lt_wf_0 x) as [x _ IH]; intros s.
  destruct (decide (x = 0)%N) as [->|Hx].
  - by rewrite pretty_N_go_0.
  - rewrite pretty_N_go_step by lia. intros H%IH; [done|].
    apply N.div_lt; lia.
Qed.

Lemma str_avoids_placeholder (n : Z) : avoids (str n) "{bbox_scale}" = true.
Proof.
  destruct n as [|p|p]; [done| |].
  - change (avoids (pretty_N_go (N.pos p) "") "{bbox_scale}" = true).
    by apply pretty_N_go_avoids.
  - change (avoids (String "-" (pretty_N_go (N.pos p) "")) "{bbox_scale}" = true).
    cbn [avoids]. rewrite pretty_N_go_avoids by done. reflexivity.
Qed.

Lemma str_nonempty (n : Z) : str n ≠ "".
Proof.
  destruct n as [|p|p]; [done| |done].
  change (pretty_N_go (N.pos p) "" ≠ "").
  rewrite pretty_N_go_step by lia. by intros H%pretty_N_go_nonempty.
Qed.

Lemma str_inj (n m : Z) : str n = str m → n = m.
Proof. apply pretty_Z_inj. Qed.

(** *** Comprehensions over equal functions *)

Lemma mapM_ext_Forall {A B} (f g : A → result B) (l : list A) :
  Forall (λ x, f x = g x) l → mapM f l = mapM g l.
Proof.
  induction 1 as [|x l Hx _ IH]; [done|]. by rewrite !mapM_cons, Hx, IH.
Qed.

Lemma mapM_fmap {A B C} (f : B → result C) (h : A → B) (l : list A) :
  mapM f (h <$> l) = mapM (f ∘ h) l.
Proof.
  induction l as [|x l IH]; [done|].
  rewrite fmap_cons, !mapM_cons, IH. done.
Qed.

(** *** Trimming what generation appended *)

Lemma trim_prompts_app (ids continuations : list (list Z)) :
  length continuations = length ids →
  trim_prompts ids (zip_with app ids continuations) = continuations.
Proof.
  unfold trim_prompts. revert continuations.
  induction ids as [|row ids IH]; intros [|c continuations]; try done.
  intros [= Hlen]. cbn [zip_with]. by rewrite drop_app_length, IH.
Qed.

Lemma wrap_results_token_counts (output_text : list string)
    (trimmed : list (list Z)) (P : Z → Prop) :
  Forall (λ ids, P (Z.of_nat (length ids))) trimmed →
  Forall (λ r, P (token_count r)) (wrap_results output_text trimmed).
Proof.
  rewrite !Forall_lookup.
  intros Hall i r (out & ids & _ & Hids & ->)%wrap_results_lookup.
  exact (Hall i ids Hids).
Qed.

Lemma toy_appends_continuations cuda :
  appends_continuations (Toy.toy_runtime cuda) Toy.toy_model.
Proof.
  intros inputs n generated_ids [= <-].
  exists ((λ r, take (Z.to_nat n) (reverse r)) <$> Toy.rows inputs).
  simpl. split; [by rewrite length_fmap|]. split.
  - induction (Toy.rows inputs) as [|r rows IH]; [done|].
    rewrite !fmap_cons. cbn [zip_with]. by rewrite IH.
  - apply Forall_fmap, Forall_forall. intros r _. simpl.
    rewrite length_take. lia.
Qed.

(** ** Further properties of prompt rendering *)

(** X7.  The text rendered from a template holds no [{bbox_scale}]
    placeholder any more, so rendering it again, with any scale, changes
    nothing. *)
Theorem rendered_prompt_has_no_placeholder {Text Vision Encoding : Type}
    (PROMPT_MAPPING : gmap string string) (item : BatchInputItem)
    (processor : Processor Text Vision Encoding) (bbox_scale : Z)
    (template : string) :
  truthy (prompt item) = false →
  PROMPT_MAPPING !! prompt_type item = Some template →
  ∃ text,
    process_batch_element PROMPT_MAPPING item processor bbox_scale
    = Ok {| role := "user";
            content := [ImageBlock (scale_to_fit (image item) (1536, 1024));
                        TextBlock text] |}
    ∧ contains "{bbox_scale}" text = false
    ∧ ∀ other_scale, str_replace text "{bbox_scale}" (str other_scale) = text.
Proof.
  intros Hp Ht. eexists. split; [by apply process_template|].
  assert (contains "{bbox_scale}"
            (str_replace template "{bbox_scale}" (str bbox_scale)) = false) as Hfree.
  { rewrite str_replace_placeholder.
    apply replace_scan_no_match;
      [done|apply str_nonempty|apply str_avoids_placeholder]. }
  split; [done|]. intros other_scale.
  rewrite (str_replace_placeholder (str_replace _ _ _)).
  by apply replace_scan_free.
Qed.

Lemma rendered_prompt_has_no_placeholder_witness :
  contains "{bbox_scale}" "OCR this image, coordinates up to 1000 (1000 wide)."
  = false.
Proof.
  destruct (rendered_prompt_has_no_placeholder Toy.sample_prompts Toy.page
              Toy.toy_processor 1000
              "OCR this image, coordinates up to {bbox_scale} ({bbox_scale} wide)."
              eq_refl eq_refl) as (text & Hmsg & Hfree & _).
  vm_compute in Hmsg. injection Hmsg as <-. exact Hfree.
Defined.

(** X8.  For a template that holds the placeholder, different scales give
    different messages: the prompt tells which scale it was rendered
    with. *)
Theorem rendered_prompt_determines_scale {Text Vision Encoding : Type}
    (PROMPT_MAPPING : gmap string string) (item : BatchInputItem)
    (processor : Processor Text Vision Encoding) (scale1 scale2 : Z)
    (template : string) :
  truthy (prompt item) = false →
  PROMPT_MAPPING !! prompt_type item = Some template →
  contains "{bbox_scale}" template = true →
  scale1 ≠ scale2 →
  process_batch_element PROMPT_MAPPING item processor scale1
  ≠ process_batch_element PROMPT_MAPPING item processor scale2.
Proof.
  intros Hp Ht Hc Hne.
  rewrite !(process_template _ _ _ _ template) by done.
  intros [= Heq]. apply Hne, str_inj.
  by apply (replace_scan_inj "{bbox_scale}" _ _ template).
Qed.

Lemma rendered_prompt_determines_scale_witness :
  process_batch_element Toy.sample_prompts Toy.page Toy.toy_processor 1000
  ≠ process_batch_element Toy.sample_prompts Toy.page Toy.toy_processor 1024.
Proof.
  apply (rendered_prompt_determines_scale Toy.sample_prompts Toy.page
           Toy.toy_processor 1000 1024
           "OCR this image, coordinates up to {bbox_scale} ({bbox_scale} wide).");
    [reflexivity|reflexivity|reflexivity|discriminate].
Defined.

(** ** Further properties of [generate_hf] *)

Lemma process_without_empty_prompt {Text Vision Encoding : Type}
    (PROMPT_MAPPING : gmap string string) (item : BatchInputItem)
    (processor : Processor Text Vision Encoding) (bbox_scale : Z) :
  process_batch_element PROMPT_MAPPING (without_empty_prompt item) processor
    bbox_scale
  = process_batch_element PROMPT_MAPPING item processor bbox_scale.
Proof.
  unfold without_empty_prompt. destruct (truthy (prompt item)) eqn:Hp; [done|].
  destruct (PROMPT_MAPPING !! prompt_type item) as [t|] eqn:Ht.
  - by rewrite !(process_template _ _ _ _ t).
  - by rewrite !process_missing_template.
Qed.

(** X3.  When generation appends to every row of input ids a continuation
    of at most [max_new_tokens] tokens, every [token_count] lies between
    0 and the budget: the caller's [max_output_tokens], or
    [settings.MAX_OUTPUT_TOKENS] when that is left out. *)
Theorem token_count_within_budget {Text Vision Encoding : Type}
    (PROMPT_MAPPING : gmap string string) (settings : Settings)
    (rt : Runtime Vision Encoding) (batch : list BatchInputItem)
    (model : Model Text Vision Encoding) (max_output_tokens : option Z)
    (bbox_scale : Z) (results : list GenerationResult) :
  appends_continuations rt model →
  generate_hf PROMPT_MAPPING settings rt batch model max_output_tokens bbox_scale
  = Ok results →
  Forall (λ r, 0 ≤ token_count r
               ≤ Z.max 0 (match max_output_tokens with
                          | Some n => n
                          | None => MAX_OUTPUT_TOKENS settings
                          end))
         results.
Proof.
  intros Hgen Hrun.
  destruct (generate_hf_Ok_inv _ _ _ _ _ _ _ _ Hrun)
    as (messages & inputs & generated_ids & output_text
        & Hprep & Hg & Hdec & ->).
  destruct (Hgen _ _ _ Hg) as (continuations & Hlen & -> & Hshort).
  rewrite trim_prompts_app by done.
  apply (wrap_results_token_counts _ _
           (λ z, 0 ≤ z ≤ Z.max 0 (token_budget settings max_output_tokens))).
  eapply Forall_impl; [exact Hshort|]. intros c Hc. simpl in *. lia.
Qed.

Lemma token_count_within_budget_witness :
  Forall (λ r, 0 ≤ token_count r ≤ 4)
    [ {| raw := "trah"; token_count := 4; error := false |};
      {| raw := ".)ed"; token_count := 4; error := false |} ].
Proof.
  apply (token_count_within_budget Toy.sample_prompts Toy.sample_settings
           (Toy.toy_runtime true) [Toy.chart; Toy.page] Toy.toy_model None 1000
           _ (toy_appends_continuations true)).
  vm_compute. reflexivity.
Defined.

(** X6.  When generation appends a continuation to every row of input
    ids, the sequences handed to [batch_decode] are exactly those
    continuations, and the results pair each decoded text with the length
    of its continuation. *)
Theorem generate_hf_decodes_continuations {Text Vision Encoding : Type}
    (PROMPT_MAPPING : gmap string string) (settings : Settings)
    (rt : Runtime Vision Encoding) (batch : list BatchInputItem)
    (model : Model Text Vision Encoding) (max_output_tokens : option Z)
    (bbox_scale : Z) (results : list GenerationResult) :
  appends_continuations rt model →
  generate_hf PROMPT_MAPPING settings rt batch model max_output_tokens bbox_scale
  = Ok results →
  ∃ messages inputs continuations output_text,
    prepare_inputs PROMPT_MAPPING rt batch model bbox_scale
    = Ok (messages, inputs)
    ∧ generate model inputs (token_budget settings max_output_tokens)
      = Ok (zip_with app (input_ids rt inputs) continuations)
    ∧ length continuations = length (input_ids rt inputs)
    ∧ batch_decode (processor model) continuations = Ok output_text
    ∧ results
      = zip_with (λ out c, {| raw := out;
                              token_count := Z.of_nat (length c);
                              error := false |})
                 output_text continuations.
Proof.
  intros Hgen Hrun.
  destruct (generate_hf_Ok_inv _ _ _ _ _ _ _ _ Hrun)
    as (messages & inputs & generated_ids & output_text
        & Hprep & Hg & Hdec & ->).
  destruct (Hgen _ _ _ Hg) as (continuations & Hlen & -> & _).
  rewrite trim_prompts_app in * by done.
  by exists messages, inputs, continuations, output_text.
Qed.

Lemma generate_hf_decodes_continuations_witness :
  ∃ (continuations : list (list Z)) (output_text : list string),
    length continuations = 2%nat
    ∧ batch_decode Toy.toy_processor continuations = Ok output_text
    ∧ [ {| raw := "trah"; token_count := 4; error := false |};
        {| raw := ".)ed"; token_count := 4; error := false |} ]
      = zip_with (λ out c, {| raw := out;
                              token_count := Z.of_nat (length c);
                              error := false |})
                 output_text continuations.
Proof.
  destruct (generate_hf_decodes_continuations Toy.sample_prompts
              Toy.sample_settings (Toy.toy_runtime true) [Toy.chart; Toy.page]
              Toy.toy_model None 1000
              [ {| raw := "trah"; token_count := 4; error := false |};
                {| raw := ".)ed"; token_count := 4; error := false |} ]
              (toy_appends_continuations true))
    as (messages & inputs & continuations & output_text
        & Hprep & Hg & Hlen & Hdec & Hres).
  { vm_compute. reflexivity. }
  exists continuations, output_text.
  vm_compute in Hprep. injection Hprep as <- <-.
  split; [exact Hlen|]. split; [exact Hdec|exact Hres].
Defined.

(** X9.  A batch whose items all carry a non-empty prompt of their own
    gives the same outcome with any registry and any scale: neither is
    read. *)
Theorem own_prompts_ignore_registry {Text Vision Encoding : Type}
    (registry1 registry2 : gmap string string) (settings : Settings)
    (rt : Runtime Vision Encoding) (batch : list BatchInputItem)
    (model : Model Text Vision Encoding) (max_output_tokens : option Z)
    (scale1 scale2 : Z) :
  Forall (λ item, truthy (prompt item) = true) batch →
  generate_hf registry1 settings rt batch model max_output_tokens scale1
  = generate_hf registry2 settings rt batch model max_output_tokens scale2.
Proof.
  intros Hown. unfold generate_hf.
  rewrite (mapM_ext_Forall
             (λ item, process_batch_element registry1 item (processor model) scale1)
             (λ item, process_batch_element registry2 item (processor model) scale2));
    [done|].
  eapply Forall_impl; [exact Hown|]. intros item Hp.
  apply truthy_Some in Hp as (s & Hs & Hne).
  by rewrite !(process_own_prompt _ _ _ _ s).
Qed.

Lemma own_prompts_ignore_registry_witness :
  generate_hf Toy.sample_prompts Toy.sample_settings (Toy.toy_runtime true)
    [Toy.chart] Toy.toy_model None 1000
  = generate_hf ∅ Toy.sample_settings (Toy.toy_runtime true)
      [Toy.chart] Toy.toy_model None 1.
Proof.
  apply (own_prompts_ignore_registry Toy.sample_prompts ∅ Toy.sample_settings
           (Toy.toy_runtime true) [Toy.chart] Toy.toy_model None 1000 1).
  repeat constructor.
Defined.

(** X10.  An empty prompt and an absent prompt are the same to
    [generate_hf]: turning every empty prompt of the batch into [None]
    changes nothing of the outcome. *)
Theorem empty_prompt_is_absent {Text Vision Encoding : Type}
    (PROMPT_MAPPING : gmap string string) (settings : Settings)
    (rt : Runtime Vision Encoding) (batch : list BatchInputItem)
    (model : Model Text Vision Encoding) (max_output_tokens : option Z)
    (bbox_scale : Z) :
  generate_hf PROMPT_MAPPING settings rt (without_empty_prompt <$> batch) model
    max_output_tokens bbox_scale
  = generate_hf PROMPT_MAPPING settings rt batch model max_output_tokens
      bbox_scale.
Proof.
  unfold generate_hf. rewrite mapM_fmap.
  rewrite (mapM_ext_Forall _
             (λ item, process_batch_element PROMPT_MAPPING item
                        (processor model) bbox_scale)); [done|].
  apply Forall_forall. intros item _. apply process_without_empty_prompt.
Qed.

(** X11.  An empty batch is not set apart: the chat template is applied
    to the empty list of messages, and an exception it raises there is the
    outcome of the call; with libraries that keep one row per item, a
    call that returns gives the empty list. *)
Theorem empty_batch_not_special {Text Vision Encoding : Type}
    (PROMPT_MAPPING : gmap string string) (settings : Settings)
    (rt : Runtime Vision Encoding) (model : Model Text Vision Encoding)
    (max_output_tokens : option Z) (bbox_scale : Z) :
  let outcome :=
    generate_hf PROMPT_MAPPING settings rt [] model max_output_tokens
      bbox_scale in
  (∀ e, apply_chat_template (processor model) [] = Raise e → outcome = Raise e)
  ∧ (row_per_item rt model → ∀ results, outcome = Ok results → results = []).
Proof.
  intros outcome. subst outcome. split.
  - intros e He. unfold generate_hf. rewrite mapM_nil. cbn [mbind result_bind].
    by rewrite He.
  - intros (Htok & Hmove & Hgenlen & Hdeclen) results Hrun.
    destruct (generate_hf_Ok_inv _ _ _ _ _ _ _ _ Hrun)
      as (messages & inputs & generated_ids & output_text
          & Hprep & Hgen & Hdec & ->).
    destruct (prepare_inputs_Ok_inv _ _ _ _ _ _ _ Hprep)
      as (Hms & text & vis & host & Htext & Hvis & Hhost & Hto).
    rewrite mapM_nil in Hms. injection Hms as <-.
    pose proof (Htok _ _ _ _ Htext Hvis Hhost) as Li.
    rewrite <-(Hmove _ _ _ Hto) in Li.
    apply nil_length_inv.
    rewrite length_wrap_results, length_trim_prompts, Li. simpl. lia.
Qed.

Lemma empty_batch_not_special_witness :
  generate_hf Toy.sample_prompts Toy.sample_settings (Toy.toy_runtime true)
    [] Toy.strict_model None 1000
  = Raise (LibraryError "list index out of range").
Proof.
  apply (proj1 (empty_batch_not_special Toy.sample_prompts Toy.sample_settings
                  (Toy.toy_runtime true) Toy.strict_model None 1000)).
  reflexivity.
Defined.

(** ** Further properties of [load_model] *)

(** X12.  Loading has no fallback: [load_model] raises [e] exactly when
    the model's [from_pretrained] raises [e], or the model loads and the
    processor's [from_pretrained] raises [e]. *)
Theorem load_model_failures {Text Vision Encoding : Type}
    (settings : Settings) (rt : Runtime Vision Encoding)
    (hub : Transformers Text Vision Encoding) (e : exn) :
  load_model settings rt hub = Raise e
  ↔ model_from_pretrained hub (MODEL_CHECKPOINT settings)
      (load_model_kwargs settings rt) = Raise e
    ∨ ((∃ g, model_from_pretrained hub (MODEL_CHECKPOINT settings)
               (load_model_kwargs settings rt) = Ok g)
       ∧ processor_from_pretrained hub (MODEL_CHECKPOINT settings) = Raise e).
Proof.
  unfold load_model.
  destruct (model_from_pretrained hub _ _) as [g|e']; cbn [mbind result_bind].
  - destruct (processor_from_pretrained hub _) as [p|e''];
      cbn [mbind result_bind mret result_ret].
    + split; [done|]. intros [H|[_ H]]; discriminate H.
    + split.
      * intros [= ->]. right. split; [by exists g|done].
      * intros [H|[_ H]]; [discriminate H|by injection H as ->].
  - split; [intros [= ->]; by left|].
    intros [H|[[g H] _]]; [by injection H as ->|discriminate H].
Qed.

Lemma load_model_failures_witness :
  load_model Toy.sample_settings (Toy.toy_runtime true) Toy.no_processor_hub
  = Raise (LibraryError "preprocessor_config.json not found").
Proof.
  apply (proj2 (load_model_failures Toy.sample_settings (Toy.toy_runtime true)
                  Toy.no_processor_hub _)).
  right. split; [by eexists|reflexivity].
Defined.

(** X13.  The keyword arguments hold the three placement keys, the keys of
    one precision path, and the attention key when configured: no other
    key is ever passed, and between four and six in all. *)
Theorem load_model_kwargs_keys {Vision Encoding : Type}
    (settings : Settings) (rt : Runtime Vision Encoding) :
  dom (load_model_kwargs settings rt)
  = placement_keys
    ∪ precision_keys (USE_8BIT_QUANTIZATION settings && cuda_is_available rt)
    ∪ attention_keys (truthy (TORCH_ATTN settings))
  ∧ (4 ≤ base.size (load_model_kwargs settings rt) ≤ 6)%nat.
Proof.
  unfold load_model_kwargs, placement_keys, precision_keys, attention_keys.
  destruct (USE_8BIT_QUANTIZATION settings && cuda_is_available rt),
           (truthy (TORCH_ATTN settings));
    (split;
     [ rewrite !dom_insert_L, dom_empty_L; set_solver
     | repeat (rewrite map_size_insert_None by by simplify_map_eq);
       rewrite map_size_empty; lia ]).
Qed.
